(** * WanderLust-AI: the planning workflow of [main.py]

    A shallow embedding of the orchestration core of [src/main.py]:
    the geocoding tool [query_places_nominatim], the three agent nodes,
    the feedback gate, the compiled LangGraph workflow, the two HTTP
    operations [start_plan] and [resume_plan], the routing tool
    [get_ors_directions] with the initialisation of its client, and the
    two payloads that [src/frontend.py] builds for the operations.

    Conventions of the embedding.
    - A Python [dict] with string keys is a [gmap string Value];
      [d.update(o)] is the left-biased union [o ∪ d].
    - A Python exception is a [Raise] result; [try/except Exception] is
      [try_except].
    - The language models, the geocoder and [geodesic] are external
      services.  They are oracles of a [World]; the oracles with a network
      behind them also receive the history of all external calls made so
      far, so that two calls with equal arguments may answer differently.
      Every theorem quantifies over the world.
    - Python floats that are only compared with exact constants
      (importance against 0.75, distances against 30 and 200) are
      rationals [Q]: every finite float is a rational and the comparisons
      of the source are exact on them.
    - A string is a sequence of code points below 256.
    - [print] calls are left out. *)

From Stdlib Require Import QArith Ascii.
From stdpp Require Import gmap strings list fin_maps.

Open Scope string_scope.
Open Scope list_scope.

(** ** Results and exceptions *)

Inductive exn :=
| KeyError (key : string)
| TypeError
| AttributeError
| ServiceError (msg : string)
| GraphRecursionError.

Inductive Res (A : Type) :=
| Ok (a : A)
| Raise (e : exn).
Arguments Ok {A} a.
Arguments Raise {A} e.

#[global] Instance Res_ret : MRet Res := λ A a, Ok a.
#[global] Instance Res_bind : MBind Res := λ A B f r,
  match r with
  | Ok a => f a
  | Raise e => Raise e
  end.

(** ** Data *)

(** A geopy [Location]: [raw_importance] is [raw.get("importance")]. *)
Record Location := {
  latitude : Q;
  longitude : Q;
  loc_address : string;
  raw_importance : option Q
}.

(** The dict the tool returns:
    [{"name": ..., "address": ..., "coordinates": [lon, lat]}]. *)
Record Place := {
  name : string;
  address : string;
  coordinates : Q * Q
}.

(** The values a [TravelGraphState] holds, by declared field type. *)
Inductive Value :=
| VNone
| VStr (s : string)
| VInt (z : Z)
| VStrs (l : list string)
| VPlaces (l : list Place).

(** Python truthiness, as [if v:] tests it. *)
Definition truthy (v : Value) : bool :=
  match v with
  | VNone => false
  | VStr s => negb (String.eqb s "")
  | VInt z => negb (z =? 0)%Z
  | VStrs l => match l with [] => false | _ => true end
  | VPlaces l => match l with [] => false | _ => true end
  end.

(** [state[k]]: a missing key raises [KeyError]. *)
Definition getitem (state : gmap string Value) (k : string) : Res Value :=
  match state !! k with
  | Some v => Ok v
  | None => Raise (KeyError k)
  end.

(** [state.get(k)]: a missing key reads as [None]. *)
Definition dict_get (state : gmap string Value) (k : string) : Value :=
  default VNone (state !! k).

(** Reads of a field at the type [TravelGraphState] declares for it; a
    value of another type raises [TypeError] at the operation that needs
    the declared one. *)
Definition as_int (v : Value) : Res Z :=
  match v with VInt z => Ok z | _ => Raise TypeError end.
Definition as_str (v : Value) : Res string :=
  match v with VStr s => Ok s | _ => Raise TypeError end.
Definition as_strs (v : Value) : Res (list string) :=
  match v with VStrs l => Ok l | _ => Raise TypeError end.

(** [sub in s] on Python strings. *)
Fixpoint contains (sub s : string) : bool :=
  String.prefix sub s ||
  match s with
  | EmptyString => false
  | String _ s' => contains sub s'
  end.

(** [a > b] on numbers. *)
Definition Qgt_bool (a b : Q) : bool := negb (Qle_bool a b).

(** ** External services *)

Definition Coords : Type := Q * Q.

Inductive Node :=
| vibe_interpreter
| search_agent_node
| itinerary_agent_node
| await_feedback_node.

#[global] Instance Node_eq_dec : EqDecision Node.
Proof. solve_decision. Defined.

(** The values interpolated into the three prompts. *)
Record VibePrompt := {
  vp_destination : Value;
  vp_duration_days : Z;
  vp_vibe : Value;
  vp_avoid : Value;
  vp_target_count : Z
}.

Record SearchPrompt := {
  sp_keywords : Value;
  sp_location_fixed : string
}.

Record ItineraryPrompt := {
  ip_destination : Value;
  ip_duration_days : Value;
  ip_vibe : Value;
  ip_search_results : Value
}.

(** One entry of [response.tool_calls]. *)
Record ToolCall := {
  tc_name : string;
  tc_query : string;
  tc_location_name : string
}.

(** What the program does to the outside, in order. *)
Inductive Event :=
| EvGeocode (q : string) (addressdetails : bool)
| EvGeocodeMany (q : string) (limit : nat)
| EvGeodesic (a b : Coords)
| EvSleep
| EvHeroStructured (p : VibePrompt)
| EvGeminiTools (p : SearchPrompt)
| EvHero (p : ItineraryPrompt)
| EvDirections (coordinates : list (list Q)) (profile : string).

Definition Log := list Event.

(** The log [h] extended by the event [e]. *)
Notation "h ▷ e" := (h ++ [e]) (at level 50, left associativity).

Record World := {
  (** [geolocator.geocode(q, timeout=10, ...)], one result or [None] *)
  geocode : Log → string → bool → Res (option Location);
  (** [geolocator.geocode(q, exactly_one=False, limit=n, timeout=10)];
      [None] and the empty list are both falsy and both read as [[]] *)
  geocode_many : Log → string → nat → Res (list Location);
  (** [geodesic(a, b).km] *)
  geodesic : Coords → Coords → Res Q;
  (** [llm_hero.with_structured_output(KeywordList).invoke(prompt).keywords] *)
  llm_hero_structured : Log → VibePrompt → Res (list string);
  (** [llm_gemini_tools.invoke(prompt).tool_calls] *)
  llm_gemini_tools : Log → SearchPrompt → Res (list ToolCall);
  (** [llm_hero.invoke(prompt).content] *)
  llm_hero : Log → ItineraryPrompt → Res string
}.

(** ** The monad of the program: exceptions and a log of external calls *)

Definition M (A : Type) : Type := Log → Res A * Log.

#[global] Instance M_ret : MRet M := λ A a h, (Ok a, h).
#[global] Instance M_bind : MBind M := λ A B f m h,
  match m h with
  | (Ok a, h') => f a h'
  | (Raise e, h') => (Raise e, h')
  end.

Definition lift {A} (r : Res A) : M A := λ h, (r, h).

(** An external call: the oracle sees the history, the event is logged. *)
Definition call {A} (ev : Event) (oracle : Log → Res A) : M A :=
  λ h, (oracle h, h ▷ ev).

(** [try: body  except Exception: handler] *)
Definition try_except {A} (body : M A) (handler : exn → M A) : M A :=
  λ h, match body h with
       | (Ok a, h') => (Ok a, h')
       | (Raise e, h') => handler e h'
       end.

Section Program.

Variable w : World.

Definition sleep : M unit := call EvSleep (λ _, Ok ()).

(** ** [query_places_nominatim] *)

(** The [if importance > 0.75] of the dynamic radius logic. *)
Definition radius_limit (importance : Q) : Q :=
  if Qgt_bool importance (3 # 4) then 30%Q else 200%Q.

(** The [for cand in candidates] loop with its [break]. *)
Fixpoint scan_candidates (city_coords : Coords) (limit : Q)
    (candidates : list Location) : M (option Location) :=
  match candidates with
  | [] => mret None
  | cand :: rest =>
      let cand_coords := (latitude cand, longitude cand) in
      dist ← call (EvGeodesic city_coords cand_coords)
                  (λ _, geodesic w city_coords cand_coords);
      if Qle_bool dist limit then mret (Some cand)
      else scan_candidates city_coords limit rest
  end.

(** The body of the [try] block. *)
Definition query_places_body (query location_name : string) : M (list Place) :=
  city_loc ← call (EvGeocode location_name true)
                  (λ h, geocode w h location_name true);
  match city_loc with
  | None => mret []
  | Some city_loc =>
      let city_coords := (latitude city_loc, longitude city_loc) in
      let importance := default (1 # 2)%Q (raw_importance city_loc) in
      let limit := radius_limit importance in
      let full_query := query +:+ ", " +:+ location_name in
      _ ← sleep;
      place_loc ← call (EvGeocode full_query false)
                       (λ h, geocode w h full_query false);
      place_loc ←
        match place_loc with
        | Some l => mret (Some l)
        | None =>
            _ ← sleep;
            candidates ← call (EvGeocodeMany query 5)
                              (λ h, geocode_many w h query 5%nat);
            scan_candidates city_coords limit candidates
        end;
      match place_loc with
      | None => mret []
      | Some l =>
          mret [ {| name := query;
                    address := loc_address l;
                    coordinates := (longitude l, latitude l) |} ]
      end
  end.

Definition query_places_nominatim (query location_name : string) : M (list Place) :=
  try_except (query_places_body query location_name) (λ _, mret []).

(** ** Agent nodes *)

Definition vibe_interpreter_agent (state : gmap string Value)
    : M (gmap string Value) :=
  destination ← lift (getitem state "destination");
  duration_days ← lift (getitem state "duration_days" ≫= as_int);
  let target_count := Z.max 10 (duration_days * 4) in
  vibe ← lift (getitem state "vibe");
  avoid ← lift (getitem state "places_to_avoid");
  let prompt := {| vp_destination := destination;
                   vp_duration_days := duration_days;
                   vp_vibe := vibe;
                   vp_avoid := avoid;
                   vp_target_count := target_count |} in
  keywords ← call (EvHeroStructured prompt)
                  (λ h, llm_hero_structured w h prompt);
  mret {[ "keywords" := VStrs keywords ]}.

(** The [for tool_call in response.tool_calls] loop. *)
Fixpoint run_tool_calls (tool_calls : list ToolCall) (all_places : list Place)
    : M (list Place) :=
  match tool_calls with
  | [] => mret all_places
  | tool_call :: rest =>
      if String.eqb (tc_name tool_call) "query_places_nominatim" then
        tool_output ← query_places_nominatim (tc_query tool_call)
                                             (tc_location_name tool_call);
        run_tool_calls rest (all_places ++ tool_output)
      else run_tool_calls rest all_places
  end.

(** The deduplication loop.  [state['places_to_avoid']] is read in the
    loop, behind the [not in seen] test of the [and]. *)
Fixpoint dedupe_loop (state : gmap string Value) (all_places : list Place)
    (seen : gset string) (final_places : list Place) : Res (list Place) :=
  match all_places with
  | [] => Ok final_places
  | p :: rest =>
      if decide (name p ∈ seen) then dedupe_loop state rest seen final_places
      else
        places_to_avoid ← getitem state "places_to_avoid" ≫= as_strs;
        if decide (name p ∈ places_to_avoid)
        then dedupe_loop state rest seen final_places
        else dedupe_loop state rest ({[ name p ]} ∪ seen) (final_places ++ [p])
  end.

Definition search_agent (state : gmap string Value) : M (gmap string Value) :=
  location_fixed ← lift (getitem state "destination" ≫= as_str);
  let location_fixed :=
    if contains "London" location_fixed && negb (contains "UK" location_fixed)
    then "London, UK" else location_fixed in
  keywords ← lift (getitem state "keywords");
  let search_prompt := {| sp_keywords := keywords;
                          sp_location_fixed := location_fixed |} in
  tool_calls ← call (EvGeminiTools search_prompt)
                    (λ h, llm_gemini_tools w h search_prompt);
  all_places ← run_tool_calls tool_calls [];
  final_places ← lift (dedupe_loop state all_places ∅ []);
  mret {[ "search_results" := VPlaces final_places ]}.

Definition itinerary_agent (state : gmap string Value) : M (gmap string Value) :=
  destination ← lift (getitem state "destination");
  duration_days ← lift (getitem state "duration_days");
  vibe ← lift (getitem state "vibe");
  search_results ← lift (getitem state "search_results");
  let prompt := {| ip_destination := destination;
                   ip_duration_days := duration_days;
                   ip_vibe := vibe;
                   ip_search_results := search_results |} in
  content ← call (EvHero prompt) (λ h, llm_hero w h prompt);
  mret {[ "itinerary_draft" := VStr content ]}.

(** ** The graph *)

Definition await_feedback (state : gmap string Value) : gmap string Value :=
  {[ "user_feedback" := VNone ]}.

Inductive Target :=
| Goto (n : Node)
| END.

Definition check_feedback (state : gmap string Value) : Target :=
  if truthy (dict_get state "user_feedback") then Goto vibe_interpreter
  else END.

(** [add_node]: the function behind each node name. *)
Definition run_node (n : Node) (state : gmap string Value)
    : M (gmap string Value) :=
  match n with
  | vibe_interpreter => vibe_interpreter_agent state
  | search_agent_node => search_agent state
  | itinerary_agent_node => itinerary_agent state
  | await_feedback_node => mret (await_feedback state)
  end.

(** [add_edge] and [add_conditional_edges].  LangGraph evaluates the
    condition of a conditional edge on the state with the writes of the
    node it leaves already applied. *)
Definition next_node (n : Node) (state' : gmap string Value) : Target :=
  match n with
  | vibe_interpreter => Goto search_agent_node
  | search_agent_node => Goto itinerary_agent_node
  | itinerary_agent_node => Goto await_feedback_node
  | await_feedback_node => check_feedback state'
  end.

(** The keys of [TravelGraphState], the channels of the graph. *)
Definition schema_keys : list string :=
  [ "destination"; "duration_days"; "vibe"; "user_feedback";
    "places_to_avoid"; "keywords"; "search_results"; "itinerary_draft" ].

(** LangGraph's default [recursion_limit]: a run that has not reached
    [END] after this many steps raises [GraphRecursionError]. *)
Definition recursion_limit : nat := 25.

(** One run of the compiled graph in stream mode "updates": a node runs
    on the current state, its output is merged key by key into the state
    and is reported as the event [{node_name: node_output}]. *)
Fixpoint stream_from (steps : nat) (n : Node) (state : gmap string Value)
    : M (list (Node * gmap string Value)) :=
  match steps with
  | O => lift (Raise GraphRecursionError)
  | S steps' =>
      node_output ← run_node n state;
      let state' := node_output ∪ state in
      match next_node n state' with
      | END => mret [ (n, node_output) ]
      | Goto n' =>
          events ← stream_from steps' n' state';
          mret ((n, node_output) :: events)
      end
  end.

(** [app.stream(input)]: the entry point is [vibe_interpreter]; the keys
    of the input that are not channels of the graph are not read. *)
Definition app_stream (input : gmap string Value)
    : M (list (Node * gmap string Value)) :=
  stream_from recursion_limit vibe_interpreter
    (filter (λ kv, kv.1 ∈ schema_keys) input).

(** ** The HTTP operations *)

Record PlanRequest := {
  rq_destination : string;
  rq_duration_days : Z;
  rq_vibe : string;
  rq_places_to_avoid : list string
}.

Record ResumeRequest := {
  rq_current_state : gmap string Value;
  rq_user_feedback : string;
  rq_place_to_avoid : option string
}.

Record Response := {
  resp_itinerary_draft : Value;
  resp_current_state : gmap string Value
}.

Definition model_dump (request : PlanRequest) : gmap string Value :=
  {[ "destination" := VStr (rq_destination request);
     "duration_days" := VInt (rq_duration_days request);
     "vibe" := VStr (rq_vibe request);
     "places_to_avoid" := VStrs (rq_places_to_avoid request) ]}.

(** The [for event in app.stream(...)] loop of both operations. *)
Definition collect_updates (final_state : gmap string Value)
    (events : list (Node * gmap string Value)) : gmap string Value :=
  foldl (λ final_state event, event.2 ∪ final_state) final_state events.

Definition start_plan (request : PlanRequest) : M Response :=
  let initial_input := model_dump request in
  let initial_input := <[ "user_feedback" := VStr "Start" ]> initial_input in
  let final_state := initial_input in
  events ← app_stream initial_input;
  let final_state := collect_updates final_state events in
  mret {| resp_itinerary_draft := dict_get final_state "itinerary_draft";
          resp_current_state := final_state |}.

(** [resume_state["places_to_avoid"].append(p)]: the key must be there and
    hold a list; a list of places there is outside the declared type. *)
Definition append_place_to_avoid (resume_state : gmap string Value)
    (p : string) : Res (gmap string Value) :=
  v ← getitem resume_state "places_to_avoid";
  match v with
  | VStrs l => Ok (<[ "places_to_avoid" := VStrs (l ++ [p]) ]> resume_state)
  | VPlaces _ => Raise TypeError
  | VNone | VStr _ | VInt _ => Raise AttributeError
  end.

Definition resume_plan (request : ResumeRequest) : M Response :=
  let resume_state := rq_current_state request in
  let resume_state :=
    <[ "user_feedback" := VStr (rq_user_feedback request) ]> resume_state in
  resume_state ←
    lift (match rq_place_to_avoid request with
          | Some p =>
              if truthy (VStr p) then append_place_to_avoid resume_state p
              else Ok resume_state
          | None => Ok resume_state
          end);
  let final_state := resume_state in
  events ← app_stream resume_state;
  let final_state := collect_updates final_state events in
  mret {| resp_itinerary_draft := dict_get final_state "itinerary_draft";
          resp_current_state := final_state |}.

End Program.

(** * The routing tool *)

(** The [openrouteservice.Client] made from a key. *)
Record Client := { client_key : string }.

(** What the tool reads of a directions response:
    [result['routes'][0]['summary']] and its [duration] and [distance],
    each of which may be missing. *)
Record Summary := {
  sm_duration : option Q;
  sm_distance : option Q
}.

Record Route := { route_summary : option Summary }.

Record Directions := { dr_routes : option (list Route) }.

(** The tool returns a dict, with a note when there is no client, or a
    string. *)
Inductive DirectionsOutput :=
| Estimate (duration_minutes distance_km : Q) (note : option string)
| Message (text : string).

(** The module-level initialisation of [ors_client]: [environ] is
    [os.environ], [make_client] is [openrouteservice.Client(key=...)]. *)
Definition init_ors_client (environ : gmap string string)
    (make_client : string → Res Client) : option Client :=
  let attempt : Res (option Client) :=
    match environ !! "ORS_API_KEY" with
    | Some ors_key =>
        if negb (String.eqb ors_key "")
        then client ← make_client ors_key; Ok (Some client)
        else Ok None
    | None => Ok None
    end in
  match attempt with
  | Ok ors_client => ors_client
  | Raise _ => None
  end.

Section Routing.

(** [ors_client.directions(coordinates=..., profile=...)] *)
Variable ors_directions : Log → Client → list (list Q) → string → Res Directions.
(** The float arithmetic of the result, [round(x / 60, 1)] and
    [round(x / 1000, 1)], and [str(e)] of the error message. *)
Variables (minutes_of km_of : Q → Q) (str_of_exn : exn → string).

Definition get_ors_directions (ors_client : option Client)
    (start_coords end_coords : list Q) (profile : string)
    : M DirectionsOutput :=
  match ors_client with
  | None =>
      mret (Estimate 0 0 (Some "Directions unavailable (No API Key)"))
  | Some client =>
      try_except
        (directions_result ←
           call (EvDirections [start_coords; end_coords] profile)
                (λ h, ors_directions h client [start_coords; end_coords] profile);
         routes ← lift (match dr_routes directions_result with
                        | Some routes => Ok routes
                        | None => Raise (KeyError "routes")
                        end);
         match routes with
         | route :: _ =>
             summary ← lift (match route_summary route with
                             | Some summary => Ok summary
                             | None => Raise (KeyError "summary")
                             end);
             mret (Estimate
                     (minutes_of (default 0%Q (sm_duration summary)))
                     (km_of (default 0%Q (sm_distance summary)))
                     None)
         | [] => mret (Message "No directions found.")
         end)
        (λ e, mret (Message ("Error using OpenRouteService API: "
                             +:+ str_of_exn e)))
  end.

End Routing.

(** * The caller: the payloads of [frontend.py] *)

(** The characters [str.strip()] removes, among the code points below
    256: tab to carriage return, the four separators, the space, the next
    line control and the no-break space. *)
Definition is_space (c : Ascii.ascii) : bool :=
  let n := Ascii.nat_of_ascii c in
  ((9 <=? n) && (n <=? 13) || (28 <=? n) && (n <=? 32)
   || (n =? 133) || (n =? 160))%nat.

Fixpoint lstrip (s : string) : string :=
  match s with
  | EmptyString => EmptyString
  | String c s' => if is_space c then lstrip s' else s
  end.

Fixpoint rstrip (s : string) : string :=
  match s with
  | EmptyString => EmptyString
  | String c s' =>
      match rstrip s' with
      | EmptyString => if is_space c then EmptyString else String c EmptyString
      | r => String c r
      end
  end.

(** [s.strip()] *)
Definition strip (s : string) : string := rstrip (lstrip s).

(** [s.split(",")] *)
Fixpoint split_comma (s : string) : list string :=
  match s with
  | EmptyString => [ EmptyString ]
  | String c s' =>
      if Ascii.eqb c ","%char then EmptyString :: split_comma s'
      else match split_comma s' with
           | x :: xs => String c x :: xs
           | [] => [ String c EmptyString ]
           end
  end.

(** [[x.strip() for x in avoid.split(",") if x.strip()]] *)
Definition parse_avoid (avoid : string) : list string :=
  strip <$> List.filter (λ x, negb (String.eqb (strip x) "")) (split_comma avoid).

(** The payload of "Plan My Trip". *)
Definition start_payload (destination : string) (duration : Z)
    (vibe avoid : string) : PlanRequest :=
  {| rq_destination := destination;
     rq_duration_days := duration;
     rq_vibe := vibe;
     rq_places_to_avoid := parse_avoid avoid |}.

(** The payload of "Update Itinerary". *)
Definition resume_payload (current_state : gmap string Value)
    (feedback_text avoid_new : string) : ResumeRequest :=
  {| rq_current_state := current_state;
     rq_user_feedback := feedback_text;
     rq_place_to_avoid :=
       if negb (String.eqb avoid_new "") then Some avoid_new else None |}.

(** * Vocabulary of the properties *)

Definition coords_of (l : Location) : Coords := (latitude l, longitude l).

(** The distance evaluations the scan logs for the candidates [l]. *)
Definition geodesic_events (city_coords : Coords) (l : list Location) : Log :=
  map (λ c, EvGeodesic city_coords (coords_of c)) l.

(** [c] is beyond the limit from the anchor. *)
Definition beyond (w : World) (city_coords : Coords) (limit : Q)
    (c : Location) : Prop :=
  ∃ d, geodesic w city_coords (coords_of c) = Ok d ∧ ¬ (d <= limit)%Q.

(** [c] is within the limit from the anchor. *)
Definition within (w : World) (city_coords : Coords) (limit : Q)
    (c : Location) : Prop :=
  ∃ d, geodesic w city_coords (coords_of c) = Ok d ∧ (d <= limit)%Q.

Definition at_strict_search (h : Log) (location_name : string) : Log :=
  h ▷ EvGeocode location_name true ▷ EvSleep.

Definition at_global_search (h : Log) (query location_name : string) : Log :=
  at_strict_search h location_name
    ▷ EvGeocode (query +:+ ", " +:+ location_name) false ▷ EvSleep.

Definition place_of (query : string) (l : Location) : Place :=
  {| name := query;
     address := loc_address l;
     coordinates := (longitude l, latitude l) |}.

Definition anchor_limit (city : Location) : Q :=
  radius_limit (default (1 # 2)%Q (raw_importance city)).

(** The global search is the only source of [EvGeocodeMany] and
    [EvGeodesic] events, and it runs only behind a failed strict search. *)
Definition fallback_event (ev : Event) : Prop :=
  match ev with
  | EvGeocodeMany _ _ | EvGeodesic _ _ => True
  | _ => False
  end.

Definition location_fixed_of (destination : string) : string :=
  if contains "London" destination && negb (contains "UK" destination)
  then "London, UK" else destination.

(** [p] is the first place of [all_places] that has its name. *)
Definition first_of_its_name (p : Place) (all_places : list Place) : Prop :=
  ∃ l1 l2, all_places = l1 ++ p :: l2 ∧ name p ∉ (name <$> l1).

(** The field each node declares as its output. *)
Definition output_field (n : Node) : string :=
  match n with
  | vibe_interpreter => "keywords"
  | search_agent_node => "search_results"
  | itinerary_agent_node => "itinerary_draft"
  | await_feedback_node => "user_feedback"
  end.

(** The node names of a stream of events, in order. *)
Definition nodes_of (events : list (Node * gmap string Value)) : list Node :=
  events.*1.

Definition pipeline : list Node :=
  [ vibe_interpreter; search_agent_node; itinerary_agent_node;
    await_feedback_node ].

Definition vibe_prompt_of (destination : Value) (duration_days : Z)
    (vibe avoid : Value) : VibePrompt :=
  {| vp_destination := destination;
     vp_duration_days := duration_days;
     vp_vibe := vibe;
     vp_avoid := avoid;
     vp_target_count := Z.max 10 (duration_days * 4) |}.

Definition search_prompt_of (destination : string) (keywords : Value)
    : SearchPrompt :=
  {| sp_keywords := keywords;
     sp_location_fixed := location_fixed_of destination |}.

(** The three generators answer whatever they are asked. *)
Definition generators_answer (w : World) : Prop :=
  (∀ h p, ∃ keywords, llm_hero_structured w h p = Ok keywords) ∧
  (∀ h p, ∃ tool_calls, llm_gemini_tools w h p = Ok tool_calls) ∧
  (∀ h p, ∃ content, llm_hero w h p = Ok content).

(** The four input fields are there, at their declared types. *)
Definition has_trip_fields (state : gmap string Value) : Prop :=
  ∃ destination duration_days vibe avoid,
    state !! "destination" = Some (VStr destination) ∧
    state !! "duration_days" = Some (VInt duration_days) ∧
    state !! "vibe" = Some (VStr vibe) ∧
    state !! "places_to_avoid" = Some (VStrs avoid).

(** An event carries the declared output field of its node and no other. *)
Definition declared_output (event : Node * gmap string Value) : Prop :=
  ∃ v, event.2 = {[ output_field event.1 := v ]}.

(** What [resume_plan] appends for a given [place_to_avoid]. *)
Definition appended (place_to_avoid : option string) : list string :=
  match place_to_avoid with
  | Some p => if truthy (VStr p) then [p] else []
  | None => []
  end.

(** The state [resume_plan] hands to the graph. *)
Definition resume_state_of (request : ResumeRequest) (avoid : list string)
    : gmap string Value :=
  let resume_state :=
    <[ "user_feedback" := VStr (rq_user_feedback request) ]>
      (rq_current_state request) in
  match appended (rq_place_to_avoid request) with
  | [] => resume_state
  | new => <[ "places_to_avoid" := VStrs (avoid ++ new) ]> resume_state
  end.

(** The caller of the frontend: every response's [current_state] is sent
    back with the next feedback and the next place to block. *)
Fixpoint resume_calls (w : World) (state : gmap string Value)
    (calls : list (string * option string)) : M (gmap string Value) :=
  match calls with
  | [] => mret state
  | (feedback, place) :: rest =>
      response ← resume_plan w {| rq_current_state := state;
                                  rq_user_feedback := feedback;
                                  rq_place_to_avoid := place |};
      resume_calls w (resp_current_state response) rest
  end.

Definition sample_city (importance : Q) : Location :=
  {| latitude := 35; longitude := 135 # 1;
     loc_address := "Kyoto, Japan"; raw_importance := Some importance |}.

Definition sample_candidate : Location :=
  {| latitude := 177 # 5; longitude := 271 # 2;
     loc_address := "Ryoan-ji, Ukyo Ward"; raw_importance := None |}.

Definition sample_tool_call (query : string) : ToolCall :=
  {| tc_name := "query_places_nominatim";
     tc_query := query;
     tc_location_name := "Kyoto, Japan" |}.

(** A geocoder that knows the anchor city, answers a strict search only
    when [strict] is set, and has one global candidate, 45 km away. *)
Definition sample_world (importance : Q) (strict : bool) : World :=
  {| geocode := λ _ q _,
       if String.eqb q "Kyoto, Japan" then Ok (Some (sample_city importance))
       else if strict then Ok (Some sample_candidate) else Ok None;
     geocode_many := λ _ _ _, Ok [sample_candidate];
     geodesic := λ _ _, Ok (45 # 1)%Q;
     llm_hero_structured := λ _ _, Ok ["Ryoan-ji"; "Zen Garden"];
     llm_gemini_tools := λ _ _,
       Ok [ sample_tool_call "Ryoan-ji"; sample_tool_call "Zen Garden";
            sample_tool_call "Ryoan-ji" ];
     llm_hero := λ _ _, Ok "## Day 1" |}.

(** A geocoder that is down. *)
Definition failing_world : World :=
  {| geocode := λ _ _ _, Raise (ServiceError "timed out");
     geocode_many := λ _ _ _, Raise (ServiceError "timed out");
     geodesic := λ _ _, Ok (45 # 1)%Q;
     llm_hero_structured := λ _ _, Ok ["Ryoan-ji"];
     llm_gemini_tools := λ _ _, Ok [ sample_tool_call "Ryoan-ji" ];
     llm_hero := λ _ _, Ok "## Day 1" |}.

Definition sample_request : PlanRequest :=
  {| rq_destination := "Kyoto, Japan";
     rq_duration_days := 3;
     rq_vibe := "zen gardens";
     rq_places_to_avoid := ["Mall"] |}.

(** A state as [start_plan] returns it. *)
Definition sample_state : gmap string Value :=
  {[ "destination" := VStr "Kyoto, Japan";
     "duration_days" := VInt 3;
     "vibe" := VStr "zen gardens";
     "places_to_avoid" := VStrs ["Mall"];
     "user_feedback" := VNone;
     "keywords" := VStrs ["Ryoan-ji"; "Zen Garden"];
     "search_results" := VPlaces [place_of "Ryoan-ji" sample_candidate];
     "itinerary_draft" := VStr "## Day 1" ]}.

(** A state that reaches the gate with feedback in it. *)
Definition sample_gate_state : gmap string Value :=
  <[ "user_feedback" := VStr "Start" ]> sample_state.

(** The field of a response's state, [None] when the operation raised. *)
Definition returned_field (k : string) (r : Res Response * Log)
    : option Value :=
  match r.1 with
  | Ok response => resp_current_state response !! k
  | Raise _ => None
  end.

(** A request to the geocoder, and the pacing delay. *)
Definition geocoder_request (ev : Event) : bool :=
  match ev with
  | EvGeocode _ _ | EvGeocodeMany _ _ => true
  | _ => false
  end.

Definition is_sleep (ev : Event) : bool :=
  match ev with
  | EvSleep => true
  | _ => false
  end.

(** The external calls one invocation of the tool can make: the anchor
    lookup alone; the anchor lookup and the strict search; or these two,
    the global search and the distances of the candidates it measured. *)
Definition tool_events (w : World) (query location_name : string) (h : Log)
    (evs : Log) : Prop :=
  evs = [ EvGeocode location_name true ] ∨
  evs = [ EvGeocode location_name true; EvSleep;
          EvGeocode (query +:+ ", " +:+ location_name) false ] ∨
  ∃ city evaluated,
    geocode w h location_name true = Ok (Some city) ∧
    geocode w (at_strict_search h location_name)
      (query +:+ ", " +:+ location_name) false = Ok None ∧
    (∀ candidates,
       geocode_many w (at_global_search h query location_name) query 5 =
         Ok candidates → evaluated `prefix_of` candidates) ∧
    (∀ e,
       geocode_many w (at_global_search h query location_name) query 5 =
         Raise e → evaluated = []) ∧
    evs = [ EvGeocode location_name true; EvSleep;
            EvGeocode (query +:+ ", " +:+ location_name) false; EvSleep;
            EvGeocodeMany query 5 ]
          ++ geodesic_events (coords_of city) evaluated.

(** The test of the tool-call loop on the name of a call. *)
Definition names_the_tool (tool_call : ToolCall) : bool :=
  String.eqb (tc_name tool_call) "query_places_nominatim".

(** [sub] occurs in [s]. *)
Definition occurs_in (sub s : string) : Prop :=
  ∃ pre post, s = pre +:+ sub +:+ post.

(** What a returned state holds after a pass: the generator's keywords,
    places with pairwise different names of which none is to be avoided
    (none at all when [places_to_avoid] is not a list of strings), the
    draft, and a cleared feedback. *)
Definition consistent_state (state : gmap string Value) : Prop :=
  ∃ keywords kept content,
    state !! "keywords" = Some (VStrs keywords) ∧
    state !! "search_results" = Some (VPlaces kept) ∧
    state !! "itinerary_draft" = Some (VStr content) ∧
    state !! "user_feedback" = Some VNone ∧
    NoDup (name <$> kept) ∧
    match state !! "places_to_avoid" with
    | Some (VStrs avoid) => ∀ p, p ∈ kept → name p ∉ avoid
    | _ => kept = []
    end.

(** Two states that differ at most in [user_feedback]. *)
Definition same_but_feedback (state state' : gmap string Value) : Prop :=
  ∀ k : string, k ≠ "user_feedback" → state !! k = state' !! k.

(** A keyword generator that is rate limited. *)
Definition rate_limited_world : World :=
  {| geocode := geocode failing_world;
     geocode_many := geocode_many failing_world;
     geodesic := geodesic failing_world;
     llm_hero_structured := λ _ _, Raise (ServiceError "rate limit");
     llm_gemini_tools := llm_gemini_tools failing_world;
     llm_hero := llm_hero failing_world |}.

(** A directions provider with one route of 754 seconds and 1020 metres,
    and stand-ins for the float arithmetic and for [str(e)]. *)
Definition sample_directions : Directions :=
  {| dr_routes :=
       Some [ {| route_summary :=
                   Some {| sm_duration := Some (754 # 1)%Q;
                           sm_distance := Some (1020 # 1)%Q |} |} ] |}.

Definition sample_provider (_ : Log) (_ : Client) (_ : list (list Q))
    (_ : string) : Res Directions :=
  Ok sample_directions.

Definition sample_minutes (x : Q) : Q := (x / 60)%Q.
Definition sample_km (x : Q) : Q := (x / 1000)%Q.
Definition sample_str (e : exn) : string :=
  match e with
  | KeyError k => k
  | ServiceError msg => msg
  | _ => "error"
  end.

(** A name as the avoid list can hold it after parsing: not empty, with
    no white space at either end and no comma. *)
Definition clean_name (x : string) : Prop :=
  x ≠ "" ∧ strip x = x ∧ ¬ occurs_in "," x.

(** * Properties *)

(** ** Running the monad *)

Lemma bind_Ok {A B} (m : M A) (f : A → M B) h a h' :
  m h = (Ok a, h') → (m ≫= f) h = f a h'.
Proof. intros E. unfold mbind, M_bind. now rewrite E. Qed.

Lemma bind_Raise {A B} (m : M A) (f : A → M B) h e h' :
  m h = (Raise e, h') → (m ≫= f) h = (Raise e, h').
Proof. intros E. unfold mbind, M_bind. now rewrite E. Qed.

Lemma bind_unfold {A B} (m : M A) (f : A → M B) h :
  (m ≫= f) h =
  match m h with
  | (Ok a, h') => f a h'
  | (Raise e, h') => (Raise e, h')
  end.
Proof. reflexivity. Qed.

Lemma bind_lift_Ok {A B} (a : A) (f : A → M B) h :
  (lift (Ok a) ≫= f) h = f a h.
Proof. reflexivity. Qed.

Lemma bind_call {A B} ev (oracle : Log → Res A) (f : A → M B) h :
  (call ev oracle ≫= f) h =
  match oracle h with
  | Ok a => f a (h ▷ ev)
  | Raise e => (Raise e, h ▷ ev)
  end.
Proof. unfold mbind, M_bind, call. now destruct (oracle h). Qed.

Ltac run_monad :=
  repeat first
    [ rewrite bind_call
    | rewrite bind_lift_Ok
    | progress unfold sleep
    | progress cbn [mret M_ret] ].

(** ** The radius classification *)

Lemma Qgt_bool_true a b : Qgt_bool a b = true ↔ (b < a)%Q.
Proof.
  unfold Qgt_bool. rewrite negb_true_iff, <- not_true_iff_false, Qle_bool_iff.
  split; [apply Qnot_le_lt | apply Qlt_not_le].
Qed.

Lemma Qgt_bool_false a b : Qgt_bool a b = false ↔ (a <= b)%Q.
Proof.
  unfold Qgt_bool. rewrite negb_false_iff. apply Qle_bool_iff.
Qed.

Lemma radius_limit_megacity importance :
  (3 # 4 < importance)%Q → radius_limit importance = 30%Q.
Proof. intros H. unfold radius_limit. now rewrite (proj2 (Qgt_bool_true _ _) H). Qed.

Lemma radius_limit_regional importance :
  (importance <= 3 # 4)%Q → radius_limit importance = 200%Q.
Proof. intros H. unfold radius_limit. now rewrite (proj2 (Qgt_bool_false _ _) H). Qed.

Lemma Qle_bool_false a b : Qle_bool a b = false ↔ ¬ (a <= b)%Q.
Proof. now rewrite <- not_true_iff_false, Qle_bool_iff. Qed.

(** ** The candidate scan of the global search *)

Section Resolver.

Variable w : World.
Variables (city_coords : Coords) (limit : Q).

Lemma scan_candidates_skips l1 rest h :
  Forall (beyond w city_coords limit) l1 →
  scan_candidates w city_coords limit (l1 ++ rest) h =
  scan_candidates w city_coords limit rest (h ++ geodesic_events city_coords l1).
Proof.
  intros Hall. revert h.
  induction Hall as [|c l1 (d & Hd & Hfar) _ IH]; intros h.
  - cbn. now rewrite app_nil_r.
  - cbn [app scan_candidates]. rewrite bind_call. fold (coords_of c).
    rewrite Hd, (proj2 (Qle_bool_false _ _) Hfar), IH.
    cbn [geodesic_events map]. now rewrite <- app_assoc.
Qed.

Lemma scan_candidates_first_within l1 c l2 h :
  Forall (beyond w city_coords limit) l1 → within w city_coords limit c →
  scan_candidates w city_coords limit (l1 ++ c :: l2) h =
  (Ok (Some c), h ++ geodesic_events city_coords (l1 ++ [c])).
Proof.
  intros Hfar (d & Hd & Hnear).
  rewrite scan_candidates_skips by assumption.
  cbn [scan_candidates]. rewrite bind_call. fold (coords_of c).
  rewrite Hd, (proj2 (Qle_bool_iff _ _) Hnear). cbn.
  unfold geodesic_events. now rewrite map_app, app_assoc.
Qed.

Lemma scan_candidates_none_within l h :
  Forall (beyond w city_coords limit) l →
  scan_candidates w city_coords limit l h =
  (Ok None, h ++ geodesic_events city_coords l).
Proof.
  intros Hfar. rewrite <- (app_nil_r l) at 1.
  now rewrite scan_candidates_skips.
Qed.

(** Whatever the world answers, the scan evaluates a prefix of the
    candidates, in their order, and accepts nothing but a candidate. *)
Lemma scan_candidates_prefix l h :
  ∃ evaluated,
    evaluated `prefix_of` l ∧
    (scan_candidates w city_coords limit l h).2 =
      h ++ geodesic_events city_coords evaluated ∧
    ∀ c, (scan_candidates w city_coords limit l h).1 = Ok (Some c) →
         last evaluated = Some c.
Proof.
  revert h. induction l as [|c l IH]; intros h.
  - exists []. cbn. rewrite app_nil_r. repeat split; [done | discriminate].
  - cbn [scan_candidates]. rewrite bind_call. fold (coords_of c).
    destruct (geodesic w city_coords (coords_of c)) as [d|e].
    + destruct (Qle_bool d limit).
      * exists [c]. cbn. repeat split.
        -- now apply prefix_cons, prefix_nil.
        -- intros c' [= <-]. reflexivity.
      * destruct (IH (h ▷ EvGeodesic city_coords (coords_of c)))
          as (ev & Hpre & Hlog & Hlast).
        exists (c :: ev). repeat split.
        -- now apply prefix_cons.
        -- rewrite Hlog. cbn. now rewrite <- app_assoc.
        -- intros c' Hc'. specialize (Hlast c' Hc').
           destruct ev; [discriminate | exact Hlast].
    + exists [c]. cbn. repeat split.
      * now apply prefix_cons, prefix_nil.
      * discriminate.
Qed.

End Resolver.

Section ResolverRuns.

Variable w : World.
Variables (query location_name : string) (h : Log).

Lemma body_anchor_missing :
  geocode w h location_name true = Ok None →
  query_places_body w query location_name h =
  (Ok [], h ▷ EvGeocode location_name true).
Proof.
  intros Hcity. unfold query_places_body. rewrite bind_call, Hcity. reflexivity.
Qed.

Lemma body_strict_found city place :
  geocode w h location_name true = Ok (Some city) →
  geocode w (at_strict_search h location_name)
    (query +:+ ", " +:+ location_name) false = Ok (Some place) →
  query_places_body w query location_name h =
  (Ok [place_of query place],
   at_strict_search h location_name
     ▷ EvGeocode (query +:+ ", " +:+ location_name) false).
Proof.
  intros Hcity Hstrict. unfold query_places_body.
  rewrite bind_call, Hcity. cbn beta iota zeta.
  unfold sleep. rewrite bind_call. cbn beta iota.
  rewrite bind_call. fold (at_strict_search h location_name).
  rewrite Hstrict. reflexivity.
Qed.

Lemma body_global_search city candidates :
  geocode w h location_name true = Ok (Some city) →
  geocode w (at_strict_search h location_name)
    (query +:+ ", " +:+ location_name) false = Ok None →
  geocode_many w (at_global_search h query location_name) query 5 =
    Ok candidates →
  query_places_body w query location_name h =
  match scan_candidates w (coords_of city) (anchor_limit city) candidates
          (at_global_search h query location_name ▷ EvGeocodeMany query 5) with
  | (Ok (Some l), h') => (Ok [place_of query l], h')
  | (Ok None, h') => (Ok [], h')
  | (Raise e, h') => (Raise e, h')
  end.
Proof.
  intros Hcity Hstrict Hmany. unfold query_places_body.
  rewrite bind_call, Hcity. cbn beta iota zeta.
  unfold sleep. rewrite bind_call. cbn beta iota.
  rewrite bind_call. fold (at_strict_search h location_name).
  rewrite Hstrict. cbn beta iota.
  unfold mbind at 1. unfold M_bind at 1.
  rewrite bind_call. cbn beta iota.
  rewrite bind_call. fold (at_global_search h query location_name).
  rewrite Hmany. cbn beta iota.
  fold (coords_of city). fold (anchor_limit city).
  destruct (scan_candidates _ _ _ _ _) as [[[l|]|e] h']; reflexivity.
Qed.

End ResolverRuns.

Section ResolverOutcomes.

Variable w : World.
Variables (query location_name : string) (h : Log).

Lemma body_anchor_raises e :
  geocode w h location_name true = Raise e →
  query_places_body w query location_name h =
  (Raise e, h ▷ EvGeocode location_name true).
Proof.
  intros Hcity. unfold query_places_body. rewrite bind_call, Hcity. reflexivity.
Qed.

Lemma body_strict_raises city e :
  geocode w h location_name true = Ok (Some city) →
  geocode w (at_strict_search h location_name)
    (query +:+ ", " +:+ location_name) false = Raise e →
  query_places_body w query location_name h =
  (Raise e,
   at_strict_search h location_name
     ▷ EvGeocode (query +:+ ", " +:+ location_name) false).
Proof.
  intros Hcity Hstrict. unfold query_places_body.
  rewrite bind_call, Hcity. cbn beta iota zeta.
  unfold sleep. rewrite bind_call. cbn beta iota.
  rewrite bind_call. fold (at_strict_search h location_name).
  rewrite Hstrict. reflexivity.
Qed.

Lemma body_global_raises city e :
  geocode w h location_name true = Ok (Some city) →
  geocode w (at_strict_search h location_name)
    (query +:+ ", " +:+ location_name) false = Ok None →
  geocode_many w (at_global_search h query location_name) query 5 = Raise e →
  query_places_body w query location_name h =
  (Raise e, at_global_search h query location_name ▷ EvGeocodeMany query 5).
Proof.
  intros Hcity Hstrict Hmany. unfold query_places_body.
  rewrite bind_call, Hcity. cbn beta iota zeta.
  unfold sleep. rewrite bind_call. cbn beta iota.
  rewrite bind_call. fold (at_strict_search h location_name).
  rewrite Hstrict. cbn beta iota.
  unfold mbind at 1. unfold M_bind at 1.
  rewrite bind_call. cbn beta iota.
  rewrite bind_call. fold (at_global_search h query location_name).
  rewrite Hmany. reflexivity.
Qed.

(** The [except Exception] clause turns a raising body into [[]]. *)
Lemma tool_of_body r h' :
  query_places_body w query location_name h = (r, h') →
  query_places_nominatim w query location_name h =
  (Ok (match r with Ok places => places | Raise _ => [] end), h').
Proof.
  intros Hbody. unfold query_places_nominatim, try_except. rewrite Hbody.
  now destruct r.
Qed.

(** The tool returns the empty list or the one place named [query]. *)
Lemma query_places_nominatim_shape :
  (query_places_nominatim w query location_name h).1 = Ok [] ∨
  ∃ l, (query_places_nominatim w query location_name h).1 =
       Ok [place_of query l].
Proof.
  destruct (geocode w h location_name true) as [[city|]|e] eqn:Hcity.
  - destruct (geocode w (at_strict_search h location_name)
                (query +:+ ", " +:+ location_name) false)
      as [[place|]|e] eqn:Hstrict.
    + right. exists place.
      now rewrite (tool_of_body _ _ (body_strict_found _ _ _ _ _ _ Hcity Hstrict)).
    + destruct (geocode_many w (at_global_search h query location_name) query 5)
        as [candidates|e] eqn:Hmany.
      * pose proof (body_global_search _ _ _ _ _ _ Hcity Hstrict Hmany) as Hbody.
        destruct (scan_candidates _ _ _ _ _) as [[[l|]|e] h'];
          rewrite (tool_of_body _ _ Hbody); [right; now exists l | now left ..].
      * left. now rewrite (tool_of_body _ _ (body_global_raises _ _ Hcity Hstrict Hmany)).
    + left. now rewrite (tool_of_body _ _ (body_strict_raises _ _ Hcity Hstrict)).
  - left. now rewrite (tool_of_body _ _ (body_anchor_missing _ _ _ _ Hcity)).
  - left. now rewrite (tool_of_body _ _ (body_anchor_raises _ Hcity)).
Qed.

Lemma fallback_needs_strict_miss evs :
  (query_places_nominatim w query location_name h).2 = h ++ evs →
  Exists fallback_event evs →
  ∃ city,
    geocode w h location_name true = Ok (Some city) ∧
    geocode w (at_strict_search h location_name)
      (query +:+ ", " +:+ location_name) false = Ok None.
Proof.
  intros Hlog Hex.
  assert (Hno : ∀ r l, query_places_body w query location_name h = (r, h ++ l) →
                       Forall (λ ev, ¬ fallback_event ev) l → False).
  { intros r l Hbody Hl. rewrite (tool_of_body _ _ Hbody) in Hlog. cbn in Hlog.
    apply app_inv_head in Hlog. subst l.
    apply Exists_exists in Hex as (ev & Hin & Hev).
    rewrite Forall_forall in Hl. exact (Hl ev Hin Hev). }
  destruct (geocode w h location_name true) as [[city|]|e] eqn:Hcity.
  - destruct (geocode w (at_strict_search h location_name)
                (query +:+ ", " +:+ location_name) false)
      as [[place|]|e] eqn:Hstrict.
    + exfalso. eapply (Hno _ [_; _; _]).
      * rewrite (body_strict_found _ _ _ _ _ _ Hcity Hstrict).
        unfold at_strict_search. now rewrite <- !app_assoc.
      * repeat constructor; cbn; tauto.
    + now exists city.
    + exfalso. eapply (Hno _ [_; _; _]).
      * rewrite (body_strict_raises _ _ Hcity Hstrict).
        unfold at_strict_search. now rewrite <- !app_assoc.
      * repeat constructor; cbn; tauto.
  - exfalso. eapply (Hno _ [_]).
    + now rewrite (body_anchor_missing _ _ _ _ Hcity).
    + repeat constructor; cbn; tauto.
  - exfalso. eapply (Hno _ [_]).
    + now rewrite (body_anchor_raises _ Hcity).
    + repeat constructor; cbn; tauto.
Qed.

End ResolverOutcomes.

(** ** The search agent *)

Lemma first_of_its_name_nil p : first_of_its_name p [] ↔ False.
Proof.
  split; [| done]. intros (l1 & l2 & Heq & _). now destruct l1.
Qed.

Lemma first_of_its_name_cons p q rest :
  first_of_its_name p (q :: rest) ↔
  p = q ∨ (name p ≠ name q ∧ first_of_its_name p rest).
Proof.
  split.
  - intros (l1 & l2 & Heq & Hl1). destruct l1 as [|q' l1]; simplify_eq/=.
    + now left.
    + right. rewrite not_elem_of_cons in Hl1. split; [tauto |].
      exists l1, l2. tauto.
  - intros [-> | (Hne & l1 & l2 & -> & Hl1)].
    + exists [], rest. split; [done |]. apply not_elem_of_nil.
    + exists (q :: l1), l2. split; [done |].
      rewrite fmap_cons, not_elem_of_cons. tauto.
Qed.

Section SearchAgent.

Variable w : World.

(** The tool calls never raise, and every place they add is named by the
    [query] argument of one of the calls to the tool. *)
Lemma run_tool_calls_spec tool_calls : ∀ all_places h,
  ∃ found,
    (run_tool_calls w tool_calls all_places h).1 = Ok (all_places ++ found) ∧
    ∀ p, p ∈ found →
      ∃ tc, tc ∈ tool_calls ∧ tc_name tc = "query_places_nominatim" ∧
            name p = tc_query tc.
Proof.
  induction tool_calls as [|tc rest IH]; intros all_places h.
  - exists []. cbn. rewrite app_nil_r. split; [done | intros p Hp; inversion Hp].
  - cbn [run_tool_calls].
    destruct (String.eqb (tc_name tc) "query_places_nominatim") eqn:Hname.
    + apply String.eqb_eq in Hname.
      unfold mbind, M_bind.
      destruct (query_places_nominatim w (tc_query tc) (tc_location_name tc) h)
        as [r h'] eqn:Htool.
      pose proof (query_places_nominatim_shape w (tc_query tc)
                    (tc_location_name tc) h) as Hshape.
      rewrite Htool in Hshape. cbn in Hshape.
      assert (∃ out, r = Ok out ∧ ∀ p, p ∈ out → name p = tc_query tc)
        as (out & -> & Hout).
      { destruct Hshape as [-> | [l ->]].
        - exists []. split; [done | intros p Hp; inversion Hp].
        - eexists. split; [done |].
          intros p Hp. apply list_elem_of_singleton in Hp. now subst p. }
      destruct (IH (all_places ++ out) h') as (found & Hrun & Hfound).
      exists (out ++ found). rewrite Hrun, app_assoc. split; [done |].
      intros p Hp. apply elem_of_app in Hp as [Hp | Hp].
      * exists tc. split; [left | auto].
      * destruct (Hfound p Hp) as (tc' & Hin & Hn & Hq).
        exists tc'. split; [now right | auto].
    + destruct (IH all_places h) as (found & Hrun & Hfound).
      exists found. split; [done |].
      intros p Hp. destruct (Hfound p Hp) as (tc' & Hin & Hn & Hq).
      exists tc'. split; [now right | auto].
Qed.

Variable state : gmap string Value.
Variable avoid : list string.
Hypothesis Havoid : state !! "places_to_avoid" = Some (VStrs avoid).

Lemma dedupe_loop_spec all_places : ∀ seen final_places,
  ∃ kept,
    dedupe_loop state all_places seen final_places = Ok (final_places ++ kept) ∧
    kept `sublist_of` all_places ∧
    NoDup (name <$> kept) ∧
    ∀ p, p ∈ kept ↔
         (name p ∉ seen) ∧ (name p ∉ avoid) ∧ first_of_its_name p all_places.
Proof.
  induction all_places as [|q rest IH]; intros seen final_places.
  - exists []. cbn. rewrite app_nil_r.
    split_and!; [done | constructor | constructor |].
    intros p. rewrite first_of_its_name_nil, elem_of_nil. tauto.
  - cbn [dedupe_loop]. destruct (decide (name q ∈ seen)) as [Hseen | Hseen].
    { destruct (IH seen final_places) as (kept & Hrun & Hsub & Hnd & Hiff).
      exists kept. split_and!; [done | now apply sublist_cons | done |].
      intros p. rewrite Hiff, first_of_its_name_cons.
      assert (p = q → name p ∈ seen) by now intros ->.
      assert (name p = name q → name p ∈ seen) by now intros ->.
      tauto. }
    unfold getitem. rewrite Havoid. cbn.
    destruct (decide (name q ∈ avoid)) as [Hav | Hav].
    { destruct (IH seen final_places) as (kept & Hrun & Hsub & Hnd & Hiff).
      exists kept. split_and!; [done | now apply sublist_cons | done |].
      intros p. rewrite Hiff, first_of_its_name_cons.
      assert (p = q → name p ∈ avoid) by now intros ->.
      assert (name p = name q → name p ∈ avoid) by now intros ->.
      tauto. }
    destruct (IH ({[ name q ]} ∪ seen) (final_places ++ [q]))
      as (kept & Hrun & Hsub & Hnd & Hiff).
    exists (q :: kept). rewrite Hrun, <- app_assoc.
    split_and!; [done | now apply sublist_skip | |].
    + rewrite fmap_cons. constructor; [| done].
      intros Hin. apply list_elem_of_fmap in Hin as (p & Hname & Hp).
      apply Hiff in Hp as (Hs & _).
      apply Hs, elem_of_union_l, elem_of_singleton. congruence.
    + intros p. rewrite elem_of_cons, Hiff, first_of_its_name_cons.
      rewrite not_elem_of_union, not_elem_of_singleton.
      assert (p = q → (name p ∉ seen) ∧ (name p ∉ avoid)) by now intros ->.
      tauto.
Qed.

End SearchAgent.

(** ** The nodes and the graph *)

Section Graph.

Variable w : World.

Lemma lift_bind_inv {A B} (r : Res A) (f : A → M B) h b h' :
  (lift r ≫= f) h = (Ok b, h') → ∃ a, r = Ok a ∧ f a h = (Ok b, h').
Proof.
  destruct r as [a|e]; [| discriminate]. intros Hf. now exists a.
Qed.

Lemma call_bind_inv {A B} ev (oracle : Log → Res A) (f : A → M B) h b h' :
  (call ev oracle ≫= f) h = (Ok b, h') →
  ∃ a, oracle h = Ok a ∧ f a (h ▷ ev) = (Ok b, h').
Proof.
  rewrite bind_call. destruct (oracle h) as [a|e]; [| discriminate].
  intros Hf. now exists a.
Qed.

Lemma bind_inv {A B} (m : M A) (f : A → M B) h b h' :
  (m ≫= f) h = (Ok b, h') → ∃ a h1, m h = (Ok a, h1) ∧ f a h1 = (Ok b, h').
Proof.
  unfold mbind, M_bind. destruct (m h) as [[a|e] h1]; [| discriminate].
  intros Hf. now exists a, h1.
Qed.

(** A node returns a dict with exactly its declared output field. *)
Lemma run_node_output n state h out h' :
  run_node w n state h = (Ok out, h') →
  ∃ v, out = {[ output_field n := v ]}.
Proof.
  destruct n; cbn [run_node output_field].
  - unfold vibe_interpreter_agent. intros Hrun.
    apply lift_bind_inv in Hrun as (? & _ & Hrun).
    apply lift_bind_inv in Hrun as (? & _ & Hrun).
    apply lift_bind_inv in Hrun as (? & _ & Hrun).
    apply lift_bind_inv in Hrun as (? & _ & Hrun).
    apply call_bind_inv in Hrun as (kws & _ & Hrun).
    injection Hrun as <- _. now eexists.
  - unfold search_agent. intros Hrun.
    apply lift_bind_inv in Hrun as (? & _ & Hrun).
    apply lift_bind_inv in Hrun as (? & _ & Hrun).
    apply call_bind_inv in Hrun as (? & _ & Hrun).
    apply bind_inv in Hrun as (? & ? & _ & Hrun).
    apply lift_bind_inv in Hrun as (? & _ & Hrun).
    injection Hrun as <- _. now eexists.
  - unfold itinerary_agent. intros Hrun.
    apply lift_bind_inv in Hrun as (? & _ & Hrun).
    apply lift_bind_inv in Hrun as (? & _ & Hrun).
    apply lift_bind_inv in Hrun as (? & _ & Hrun).
    apply lift_bind_inv in Hrun as (? & _ & Hrun).
    apply call_bind_inv in Hrun as (? & _ & Hrun).
    injection Hrun as <- _. now eexists.
  - intros [= <- _]. now eexists.
Qed.

(** Behind [await_feedback] the condition always reads a cleared field. *)
Lemma check_feedback_after_await state :
  check_feedback (await_feedback state ∪ state) = END.
Proof.
  unfold check_feedback, dict_get, await_feedback.
  now rewrite (lookup_union_Some_l _ _ _ VNone) by apply lookup_singleton_eq.
Qed.

Lemma stream_from_gate steps state h :
  stream_from w (S steps) await_feedback_node state h =
  (Ok [ (await_feedback_node, {[ "user_feedback" := VNone ]}) ], h).
Proof.
  cbn [stream_from run_node].
  change (mret (await_feedback state) ≫= ?f) with (f (await_feedback state)).
  cbn beta zeta. cbn [next_node]. now rewrite check_feedback_after_await.
Qed.

(** With at least four steps allowed, a run from the entry point is the
    three agents in a row followed by the gate, and then it is over. *)
Lemma stream_from_entry steps state h :
  stream_from w (4 + steps) vibe_interpreter state h =
  (o1 ← vibe_interpreter_agent w state;
   o2 ← search_agent w (o1 ∪ state);
   o3 ← itinerary_agent w (o2 ∪ (o1 ∪ state));
   mret [ (vibe_interpreter, o1); (search_agent_node, o2);
          (itinerary_agent_node, o3);
          (await_feedback_node, {[ "user_feedback" := VNone ]}) ]) h.
Proof.
  cbn [Nat.add stream_from run_node next_node].
  rewrite !bind_unfold.
  destruct (vibe_interpreter_agent w state h) as [[o1|e] h1]; [| done].
  rewrite !bind_unfold.
  destruct (search_agent w (o1 ∪ state) h1) as [[o2|e] h2]; [| done].
  rewrite !bind_unfold.
  destruct (itinerary_agent w (o2 ∪ (o1 ∪ state)) h2) as [[o3|e] h3]; [| done].
  rewrite !bind_unfold. cbn [mret M_ret]. cbn beta iota.
  now rewrite check_feedback_after_await.
Qed.

End Graph.

(** ** Runs of the agents on a well-formed state *)

Section AgentRuns.

Variable w : World.

Lemma vibe_interpreter_agent_run state h destination duration_days vibe avoid :
  state !! "destination" = Some destination →
  state !! "duration_days" = Some (VInt duration_days) →
  state !! "vibe" = Some vibe →
  state !! "places_to_avoid" = Some avoid →
  vibe_interpreter_agent w state h =
  (match llm_hero_structured w h
           (vibe_prompt_of destination duration_days vibe avoid) with
   | Ok keywords => Ok {[ "keywords" := VStrs keywords ]}
   | Raise e => Raise e
   end,
   h ▷ EvHeroStructured (vibe_prompt_of destination duration_days vibe avoid)).
Proof.
  intros Hd Hn Hv Ha. unfold vibe_interpreter_agent, getitem.
  rewrite Hd, Hn, Hv, Ha. cbn [mbind Res_bind as_int].
  rewrite !bind_lift_Ok, bind_call. fold (vibe_prompt_of destination duration_days vibe avoid).
  now destruct (llm_hero_structured w h _).
Qed.

Lemma itinerary_agent_run state h destination duration_days vibe results :
  state !! "destination" = Some destination →
  state !! "duration_days" = Some duration_days →
  state !! "vibe" = Some vibe →
  state !! "search_results" = Some results →
  itinerary_agent w state h =
  let prompt := {| ip_destination := destination;
                   ip_duration_days := duration_days;
                   ip_vibe := vibe;
                   ip_search_results := results |} in
  (match llm_hero w h prompt with
   | Ok content => Ok {[ "itinerary_draft" := VStr content ]}
   | Raise e => Raise e
   end,
   h ▷ EvHero prompt).
Proof.
  intros Hd Hn Hv Hr. unfold itinerary_agent, getitem.
  rewrite Hd, Hn, Hv, Hr. rewrite !bind_lift_Ok, bind_call.
  cbn zeta. now destruct (llm_hero w h _).
Qed.

Lemma run_tool_calls_total tool_calls all_places h :
  ∃ found h',
    run_tool_calls w tool_calls all_places h = (Ok (all_places ++ found), h') ∧
    ∀ p, p ∈ found →
      ∃ tc, tc ∈ tool_calls ∧ tc_name tc = "query_places_nominatim" ∧
            name p = tc_query tc.
Proof.
  destruct (run_tool_calls_spec w tool_calls all_places h)
    as (found & Hrun & Hfound).
  destruct (run_tool_calls w tool_calls all_places h) as [r h'].
  cbn in Hrun. subst r. now exists found, h'.
Qed.

Lemma search_agent_run state h destination keywords avoid tool_calls :
  state !! "destination" = Some (VStr destination) →
  state !! "keywords" = Some keywords →
  state !! "places_to_avoid" = Some (VStrs avoid) →
  llm_gemini_tools w h (search_prompt_of destination keywords) = Ok tool_calls →
  ∃ all_places kept h',
    run_tool_calls w tool_calls []
      (h ▷ EvGeminiTools (search_prompt_of destination keywords))
      = (Ok all_places, h') ∧
    (∀ p, p ∈ all_places →
       ∃ tc, tc ∈ tool_calls ∧ tc_name tc = "query_places_nominatim" ∧
             name p = tc_query tc) ∧
    dedupe_loop state all_places ∅ [] = Ok kept ∧
    search_agent w state h = (Ok {[ "search_results" := VPlaces kept ]}, h').
Proof.
  intros Hd Hk Ha Hllm.
  destruct (run_tool_calls_total tool_calls []
              (h ▷ EvGeminiTools (search_prompt_of destination keywords)))
    as (all_places & h' & Hrun & Hfound).
  cbn [app] in Hrun.
  destruct (dedupe_loop_spec state avoid Ha all_places ∅ [])
    as (kept & Hloop & _).
  exists all_places, kept, h'. split_and!; [done | done | done |].
  unfold search_agent, getitem. rewrite Hd, Hk. cbn [mbind Res_bind as_str].
  rewrite !bind_lift_Ok, bind_call.
  fold (location_fixed_of destination).
  fold (search_prompt_of destination keywords).
  rewrite Hllm. rewrite bind_unfold, Hrun, Hloop. reflexivity.
Qed.

End AgentRuns.

(** ** Merging node outputs *)

Lemma lookup_output_ne (field k : string) (v : Value) (state : gmap string Value) :
  k ≠ field → ({[ field := v ]} ∪ state) !! k = state !! k.
Proof.
  intros Hne. apply lookup_union_r. now apply lookup_singleton_ne.
Qed.

Lemma lookup_output_eq (field : string) (v : Value) (state : gmap string Value) :
  ({[ field := v ]} ∪ state) !! field = Some v.
Proof. apply lookup_union_Some_l, lookup_singleton_eq. Qed.

Lemma collect_updates_frame events : ∀ final_state (k : string),
  Forall declared_output events →
  (∀ n, k ≠ output_field n) →
  collect_updates final_state events !! k = final_state !! k.
Proof.
  induction events as [|[n out] events IH]; intros final_state k Hall Hk.
  - reflexivity.
  - apply Forall_cons in Hall as [[v Hout] Hall]. cbn in Hout. subst out.
    unfold collect_updates. cbn [foldl]. fold (collect_updates
      ({[ output_field n := v ]} ∪ final_state) events).
    rewrite IH by assumption. apply lookup_output_ne, Hk.
Qed.

Section Streams.

Variable w : World.

Lemma stream_from_declared_outputs steps : ∀ n state h events h',
  stream_from w steps n state h = (Ok events, h') →
  Forall declared_output events.
Proof.
  induction steps as [|steps IH]; intros n state h events h' Hrun.
  - discriminate.
  - cbn [stream_from] in Hrun.
    apply bind_inv in Hrun as (out & h1 & Hnode & Hrun).
    apply run_node_output in Hnode as Hout.
    destruct (next_node n (out ∪ state)) as [n'|].
    + apply bind_inv in Hrun as (rest & h2 & Hrest & Hrun).
      injection Hrun as <- _. constructor; [exact Hout | eauto].
    + injection Hrun as <- _. constructor; [exact Hout | constructor].
Qed.

Lemma has_trip_fields_channels input :
  has_trip_fields input →
  has_trip_fields (filter (λ kv, kv.1 ∈ schema_keys) input).
Proof.
  intros (d & n & v & a & Hd & Hn & Hv & Ha). exists d, n, v, a.
  split_and!; apply map_lookup_filter_Some_2; try done;
    cbn; unfold schema_keys; rewrite !elem_of_cons; tauto.
Qed.

(** On a state with the trip fields and generators that answer, a run
    is one pass over the pipeline. *)
Lemma stream_from_one_pass steps state h :
  generators_answer w → has_trip_fields state →
  ∃ keywords places content h',
    stream_from w (4 + steps) vibe_interpreter state h =
    (Ok [ (vibe_interpreter, {[ "keywords" := VStrs keywords ]});
          (search_agent_node, {[ "search_results" := VPlaces places ]});
          (itinerary_agent_node, {[ "itinerary_draft" := VStr content ]});
          (await_feedback_node, {[ "user_feedback" := VNone ]}) ], h').
Proof.
  intros (Hkw & Htools & Hhero) (d & n & v & a & Hd & Hn & Hv & Ha).
  rewrite stream_from_entry.
  rewrite bind_unfold, (vibe_interpreter_agent_run w state h _ _ _ _ Hd Hn Hv Ha).
  destruct (Hkw h (vibe_prompt_of (VStr d) n (VStr v) (VStrs a)))
    as [keywords ->].
  set (s1 := {[ "keywords" := VStrs keywords ]} ∪ state).
  assert (Hd1 : s1 !! "destination" = Some (VStr d))
    by (unfold s1; now rewrite lookup_output_ne).
  assert (Hn1 : s1 !! "duration_days" = Some (VInt n))
    by (unfold s1; now rewrite lookup_output_ne).
  assert (Hv1 : s1 !! "vibe" = Some (VStr v))
    by (unfold s1; now rewrite lookup_output_ne).
  assert (Ha1 : s1 !! "places_to_avoid" = Some (VStrs a))
    by (unfold s1; now rewrite lookup_output_ne).
  assert (Hk1 : s1 !! "keywords" = Some (VStrs keywords))
    by apply lookup_output_eq.
  set (h1 := h ▷ _).
  destruct (Htools h1 (search_prompt_of d (VStrs keywords))) as [calls Hcalls].
  destruct (search_agent_run w s1 h1 _ _ _ _ Hd1 Hk1 Ha1 Hcalls)
    as (all_places & places & h2 & _ & _ & _ & Hsearch).
  rewrite bind_unfold, Hsearch.
  set (s2 := {[ "search_results" := VPlaces places ]} ∪ s1).
  rewrite bind_unfold, (itinerary_agent_run w s2 h2 (VStr d) (VInt n) (VStr v)
                          (VPlaces places)).
  - cbn zeta. set (prompt := Build_ItineraryPrompt _ _ _ _).
    destruct (Hhero h2 prompt) as [content ->].
    now exists keywords, places, content, (h2 ▷ EvHero prompt).
  - unfold s2. now rewrite lookup_output_ne.
  - unfold s2. now rewrite lookup_output_ne.
  - unfold s2. now rewrite lookup_output_ne.
  - apply lookup_output_eq.
Qed.

End Streams.

(** ** The two operations *)

Section Operations.

Variable w : World.

Lemma start_plan_unfold request h :
  start_plan w request h =
  let initial_input :=
    <[ "user_feedback" := VStr "Start" ]> (model_dump request) in
  match app_stream w initial_input h with
  | (Ok events, h') =>
      let final_state := collect_updates initial_input events in
      (Ok {| resp_itinerary_draft := dict_get final_state "itinerary_draft";
             resp_current_state := final_state |}, h')
  | (Raise e, h') => (Raise e, h')
  end.
Proof. reflexivity. Qed.

Lemma resume_plan_unfold request h avoid :
  rq_current_state request !! "places_to_avoid" = Some (VStrs avoid) →
  resume_plan w request h =
  let resume_state := resume_state_of request avoid in
  match app_stream w resume_state h with
  | (Ok events, h') =>
      let final_state := collect_updates resume_state events in
      (Ok {| resp_itinerary_draft := dict_get final_state "itinerary_draft";
             resp_current_state := final_state |}, h')
  | (Raise e, h') => (Raise e, h')
  end.
Proof.
  intros Havoid. unfold resume_plan, resume_state_of, appended.
  destruct (rq_place_to_avoid request) as [p|]; [| reflexivity].
  destruct (truthy (VStr p)); [| reflexivity].
  unfold append_place_to_avoid, getitem.
  rewrite lookup_insert_ne by done. rewrite Havoid. reflexivity.
Qed.

Lemma resume_state_of_avoid request avoid :
  rq_current_state request !! "places_to_avoid" = Some (VStrs avoid) →
  resume_state_of request avoid !! "places_to_avoid" =
  Some (VStrs (avoid ++ appended (rq_place_to_avoid request))).
Proof.
  intros Havoid. unfold resume_state_of.
  destruct (appended (rq_place_to_avoid request)) as [|p new].
  - rewrite app_nil_r, lookup_insert_ne by done. exact Havoid.
  - apply lookup_insert_eq.
Qed.

Lemma resume_state_of_other request avoid (k : string) :
  k ≠ "user_feedback" → k ≠ "places_to_avoid" →
  resume_state_of request avoid !! k = rq_current_state request !! k.
Proof.
  intros Hu Hp. unfold resume_state_of.
  destruct (appended (rq_place_to_avoid request));
    now rewrite ?lookup_insert_ne by done.
Qed.

Lemma resume_state_of_feedback request avoid :
  resume_state_of request avoid !! "user_feedback" =
  Some (VStr (rq_user_feedback request)).
Proof.
  unfold resume_state_of.
  destruct (appended (rq_place_to_avoid request)).
  - apply lookup_insert_eq.
  - rewrite lookup_insert_ne by done. apply lookup_insert_eq.
Qed.

Lemma app_stream_declared_outputs input h events h' :
  app_stream w input h = (Ok events, h') → Forall declared_output events.
Proof.
  unfold app_stream. intros Hrun.
  exact (stream_from_declared_outputs w _ _ _ _ _ _ Hrun).
Qed.

Lemma app_stream_one_pass input h :
  generators_answer w → has_trip_fields input →
  ∃ keywords places content h',
    app_stream w input h =
    (Ok [ (vibe_interpreter, {[ "keywords" := VStrs keywords ]});
          (search_agent_node, {[ "search_results" := VPlaces places ]});
          (itinerary_agent_node, {[ "itinerary_draft" := VStr content ]});
          (await_feedback_node, {[ "user_feedback" := VNone ]}) ], h').
Proof.
  intros Hgen Hfields. unfold app_stream.
  change recursion_limit with (4 + 21)%nat.
  apply stream_from_one_pass; [done | now apply has_trip_fields_channels].
Qed.

End Operations.

(** ** The geolocation resolver: claims *)

(** C5.  An anchor of importance above 0.75 gets the 30 km limit, any
    other the 200 km limit.  When the strict search finds nothing, the
    global search is asked for 5 candidates, the candidates are measured
    in the order the geocoder returned them, and the first one within the
    limit is the result; the candidates behind it are not measured.  With
    importance 0.9 a single candidate 45 km away gives no result, with
    importance 0.4 the same candidate is returned. *)
Theorem radius_classification_and_global_fallback :
  (∀ importance : Q,
     ((3 # 4 < importance)%Q → radius_limit importance = 30%Q) ∧
     ((importance <= 3 # 4)%Q → radius_limit importance = 200%Q)) ∧
  ∀ (w : World) (query location_name : string) (h : Log) (city : Location),
    geocode w h location_name true = Ok (Some city) →
    geocode w (at_strict_search h location_name)
      (query +:+ ", " +:+ location_name) false = Ok None →
    let asked := at_global_search h query location_name
                   ▷ EvGeocodeMany query 5 in
    let far := beyond w (coords_of city) (anchor_limit city) in
    let near := within w (coords_of city) (anchor_limit city) in
    (∀ l1 c l2,
       geocode_many w (at_global_search h query location_name) query 5 =
         Ok (l1 ++ c :: l2) →
       Forall far l1 → near c →
       query_places_nominatim w query location_name h =
       (Ok [place_of query c],
        asked ++ geodesic_events (coords_of city) (l1 ++ [c]))) ∧
    (∀ candidates,
       geocode_many w (at_global_search h query location_name) query 5 =
         Ok candidates →
       Forall far candidates →
       query_places_nominatim w query location_name h =
       (Ok [], asked ++ geodesic_events (coords_of city) candidates)) ∧
    (∀ candidates,
       geocode_many w (at_global_search h query location_name) query 5 =
         Ok candidates →
       (length candidates ≤ 5)%nat →
       ∃ evaluated,
         evaluated `prefix_of` candidates ∧
         (length evaluated ≤ 5)%nat ∧
         (query_places_nominatim w query location_name h).2 =
           asked ++ geodesic_events (coords_of city) evaluated) ∧
    (∀ c,
       geocode_many w (at_global_search h query location_name) query 5 =
         Ok [c] →
       geodesic w (coords_of city) (coords_of c) = Ok (45 # 1)%Q →
       (raw_importance city = Some (9 # 10)%Q →
        (query_places_nominatim w query location_name h).1 = Ok []) ∧
       (raw_importance city = Some (4 # 10)%Q →
        (query_places_nominatim w query location_name h).1 =
          Ok [place_of query c])).
Proof.
  split.
  { intros importance. split;
      [apply radius_limit_megacity | apply radius_limit_regional]. }
  intros w query location_name h city Hcity Hstrict asked far near.
  assert (Hfirst : ∀ l1 c l2,
    geocode_many w (at_global_search h query location_name) query 5 =
      Ok (l1 ++ c :: l2) →
    Forall far l1 → near c →
    query_places_nominatim w query location_name h =
    (Ok [place_of query c],
     asked ++ geodesic_events (coords_of city) (l1 ++ [c]))).
  { intros l1 c l2 Hmany Hfar Hnear.
    pose proof (body_global_search _ _ _ _ _ _ Hcity Hstrict Hmany) as Hbody.
    rewrite (scan_candidates_first_within _ _ _ _ _ _ _ Hfar Hnear) in Hbody.
    now rewrite (tool_of_body _ _ _ _ _ _ Hbody). }
  assert (Hnone : ∀ candidates,
    geocode_many w (at_global_search h query location_name) query 5 =
      Ok candidates →
    Forall far candidates →
    query_places_nominatim w query location_name h =
    (Ok [], asked ++ geodesic_events (coords_of city) candidates)).
  { intros candidates Hmany Hfar.
    pose proof (body_global_search _ _ _ _ _ _ Hcity Hstrict Hmany) as Hbody.
    rewrite (scan_candidates_none_within _ _ _ _ _ Hfar) in Hbody.
    now rewrite (tool_of_body _ _ _ _ _ _ Hbody). }
  split_and!; [exact Hfirst | exact Hnone | |].
  - intros candidates Hmany Hlen.
    pose proof (body_global_search _ _ _ _ _ _ Hcity Hstrict Hmany) as Hbody.
    destruct (scan_candidates_prefix w (coords_of city) (anchor_limit city)
                candidates asked) as (evaluated & Hpre & Hlog & _).
    exists evaluated. split_and!; [done | |].
    + apply prefix_length in Hpre. lia.
    + fold asked in Hbody.
      destruct (scan_candidates _ _ _ _ _) as [[[l|]|e] h'];
        rewrite (tool_of_body _ _ _ _ _ _ Hbody); exact Hlog.
  - intros c Hmany Hdist. split; intros Himp.
    + rewrite (Hnone [c] Hmany); [done |].
      constructor; [| constructor]. exists (45 # 1)%Q. split; [done |].
      unfold anchor_limit. rewrite Himp. cbn [default].
      rewrite radius_limit_megacity by reflexivity. now apply Qlt_not_le.
    + rewrite (Hfirst [] c [] Hmany); [done | constructor |].
      exists (45 # 1)%Q. split; [done |].
      unfold anchor_limit. rewrite Himp. cbn [default].
      rewrite radius_limit_regional by discriminate. discriminate.
Qed.

Lemma radius_classification_and_global_fallback_witness :
  (query_places_nominatim (sample_world (9 # 10) false)
     "Ryoan-ji" "Kyoto, Japan" []).1 = Ok [] ∧
  (query_places_nominatim (sample_world (4 # 10) false)
     "Ryoan-ji" "Kyoto, Japan" []).1 =
    Ok [place_of "Ryoan-ji" sample_candidate].
Proof.
  split.
  - pose proof (proj2 radius_classification_and_global_fallback
                  (sample_world (9 # 10) false) "Ryoan-ji" "Kyoto, Japan" []
                  (sample_city (9 # 10)) eq_refl eq_refl) as H.
    cbv zeta in H. destruct H as (_ & _ & _ & H).
    exact (proj1 (H sample_candidate eq_refl eq_refl) eq_refl).
  - pose proof (proj2 radius_classification_and_global_fallback
                  (sample_world (4 # 10) false) "Ryoan-ji" "Kyoto, Japan" []
                  (sample_city (4 # 10)) eq_refl eq_refl) as H.
    cbv zeta in H. destruct H as (_ & _ & _ & H).
    exact (proj2 (H sample_candidate eq_refl eq_refl) eq_refl).
Defined.

(** C6.  When the strict search for "query, location_name" returns a
    result, that result is the answer: no candidate search is made and no
    distance is measured, whatever the distances are.  A candidate search
    or a distance measurement happens only behind a strict search that
    returned nothing. *)
Theorem strict_match_short_circuits :
  ∀ (w : World) (query location_name : string) (h : Log),
    (∀ city place,
       geocode w h location_name true = Ok (Some city) →
       geocode w (at_strict_search h location_name)
         (query +:+ ", " +:+ location_name) false = Ok (Some place) →
       query_places_nominatim w query location_name h =
       (Ok [place_of query place],
        h ++ [ EvGeocode location_name true; EvSleep;
               EvGeocode (query +:+ ", " +:+ location_name) false ])) ∧
    (∀ evs,
       (query_places_nominatim w query location_name h).2 = h ++ evs →
       Exists fallback_event evs →
       ∃ city,
         geocode w h location_name true = Ok (Some city) ∧
         geocode w (at_strict_search h location_name)
           (query +:+ ", " +:+ location_name) false = Ok None).
Proof.
  intros w query location_name h. split.
  - intros city place Hcity Hstrict.
    rewrite (tool_of_body _ _ _ _ _ _
               (body_strict_found _ _ _ _ _ _ Hcity Hstrict)).
    unfold at_strict_search. now rewrite <- !app_assoc.
  - apply fallback_needs_strict_miss.
Qed.

Lemma strict_match_short_circuits_witness :
  query_places_nominatim (sample_world (9 # 10) true)
    "Ryoan-ji" "Kyoto, Japan" [] =
  (Ok [place_of "Ryoan-ji" sample_candidate],
   [ EvGeocode "Kyoto, Japan" true; EvSleep;
     EvGeocode "Ryoan-ji, Kyoto, Japan" false ]).
Proof.
  exact (proj1 (strict_match_short_circuits (sample_world (9 # 10) true)
                  "Ryoan-ji" "Kyoto, Japan" [])
               (sample_city (9 # 10)) sample_candidate eq_refl eq_refl).
Defined.

Lemma scan_candidates_raises w city_coords limit l1 c l2 e h :
  Forall (beyond w city_coords limit) l1 →
  geodesic w city_coords (coords_of c) = Raise e →
  (scan_candidates w city_coords limit (l1 ++ c :: l2) h).1 = Raise e.
Proof.
  intros Hfar Hraise. rewrite scan_candidates_skips by assumption.
  cbn [scan_candidates]. rewrite bind_call. fold (coords_of c).
  now rewrite Hraise.
Qed.

(** C7.  The tool always returns a list to its caller.  The list is empty
    when the anchor city is not found, when neither search returns
    anything, when every candidate of the global search is beyond the
    limit, and when the body raises: because the geocoder raises at any
    of its three calls or because the distance computation does. *)
Theorem query_places_nominatim_never_raises :
  ∀ (w : World) (query location_name : string) (h : Log),
    let result := (query_places_nominatim w query location_name h).1 in
    let strict := geocode w (at_strict_search h location_name)
                    (query +:+ ", " +:+ location_name) false in
    let global := geocode_many w (at_global_search h query location_name)
                    query 5 in
    (∃ places, result = Ok places) ∧
    (geocode w h location_name true = Ok None → result = Ok []) ∧
    (∀ e, (query_places_body w query location_name h).1 = Raise e →
          result = Ok []) ∧
    (∀ e, geocode w h location_name true = Raise e → result = Ok []) ∧
    ∀ city,
      geocode w h location_name true = Ok (Some city) →
      (∀ e, strict = Raise e → result = Ok []) ∧
      (strict = Ok None →
       (global = Ok [] → result = Ok []) ∧
       (∀ e, global = Raise e → result = Ok []) ∧
       (∀ candidates,
          global = Ok candidates →
          Forall (beyond w (coords_of city) (anchor_limit city)) candidates →
          result = Ok []) ∧
       (∀ l1 c l2 e,
          global = Ok (l1 ++ c :: l2) →
          Forall (beyond w (coords_of city) (anchor_limit city)) l1 →
          geodesic w (coords_of city) (coords_of c) = Raise e →
          result = Ok [])).
Proof.
  intros w query location_name h result strict global.
  assert (Hbody : ∀ e, (query_places_body w query location_name h).1 = Raise e →
                       result = Ok []).
  { intros e He. unfold result.
    destruct (query_places_body w query location_name h) as [r h'] eqn:Hb.
    cbn in He. subst r. now rewrite (tool_of_body _ _ _ _ _ _ Hb). }
  split_and!.
  - destruct (query_places_nominatim_shape w query location_name h)
      as [Hnil | [l Hone]]; eauto.
  - intros Hcity. unfold result.
    now rewrite (tool_of_body _ _ _ _ _ _ (body_anchor_missing _ _ _ _ Hcity)).
  - exact Hbody.
  - intros e Hcity. apply (Hbody e).
    now rewrite (body_anchor_raises _ _ _ _ _ Hcity).
  - intros city Hcity. split.
    + intros e Hstrict. apply (Hbody e).
      now rewrite (body_strict_raises _ _ _ _ _ _ Hcity Hstrict).
    + intros Hstrict.
      assert (Hfar : ∀ candidates,
                global = Ok candidates →
                Forall (beyond w (coords_of city) (anchor_limit city)) candidates →
                result = Ok []).
      { intros candidates Hmany Hall. unfold result.
        pose proof (body_global_search _ _ _ _ _ _ Hcity Hstrict Hmany) as Hb.
        rewrite (scan_candidates_none_within _ _ _ _ _ Hall) in Hb.
        now rewrite (tool_of_body _ _ _ _ _ _ Hb). }
      split_and!.
      * intros Hmany. apply (Hfar [] Hmany). constructor.
      * intros e Hmany. apply (Hbody e).
        now rewrite (body_global_raises _ _ _ _ _ _ Hcity Hstrict Hmany).
      * exact Hfar.
      * intros l1 c l2 e Hmany Hall Hraise. apply (Hbody e).
        rewrite (body_global_search _ _ _ _ _ _ Hcity Hstrict Hmany).
        pose proof (scan_candidates_raises w _ _ l1 c l2 e
                      (at_global_search h query location_name
                         ▷ EvGeocodeMany query 5) Hall Hraise) as Hscan.
        destruct (scan_candidates _ _ _ _ _) as [r h'].
        cbn in Hscan. now subst r.
Qed.

Lemma query_places_nominatim_never_raises_witness :
  (query_places_nominatim failing_world "Ryoan-ji" "Kyoto, Japan" []).1 = Ok [].
Proof.
  pose proof (query_places_nominatim_never_raises failing_world
                "Ryoan-ji" "Kyoto, Japan" []) as H.
  cbv zeta in H. destruct H as (_ & _ & _ & H & _).
  exact (H (ServiceError "timed out") eq_refl).
Defined.

(** C10.  The tool returns at most one place, and the place it returns
    carries the query string as its name, with the geocoder's address
    beside it.  So every place the search agent keeps is named by the
    query argument of one of the tool calls the generator made, and these
    are the names it deduplicates and filters on. *)
Theorem resolved_place_is_named_by_query :
  ∀ w : World,
    (∀ query location_name h,
       ∃ places,
         (query_places_nominatim w query location_name h).1 = Ok places ∧
         (length places ≤ 1)%nat ∧
         ∀ p, p ∈ places → name p = query) ∧
    (∀ state h destination keywords avoid tool_calls,
       state !! "destination" = Some (VStr destination) →
       state !! "keywords" = Some keywords →
       state !! "places_to_avoid" = Some (VStrs avoid) →
       llm_gemini_tools w h (search_prompt_of destination keywords) =
         Ok tool_calls →
       ∃ kept,
         (search_agent w state h).1 = Ok {[ "search_results" := VPlaces kept ]} ∧
         ∀ p, p ∈ kept →
           (name p ∉ avoid) ∧
           ∃ tc, tc ∈ tool_calls ∧
                 tc_name tc = "query_places_nominatim" ∧
                 name p = tc_query tc).
Proof.
  intros w. split.
  - intros query location_name h.
    destruct (query_places_nominatim_shape w query location_name h)
      as [-> | [l ->]].
    + exists []. split_and!; [done | cbn; lia |]. intros p Hp. inversion Hp.
    + eexists. split_and!; [done | cbn; lia |].
      intros p Hp. apply list_elem_of_singleton in Hp. now subst p.
  - intros state h destination keywords avoid tool_calls Hd Hk Ha Hllm.
    destruct (search_agent_run w state h _ _ _ _ Hd Hk Ha Hllm)
      as (all_places & kept & h' & _ & Hnamed & Hloop & Hrun).
    exists kept. rewrite Hrun. split; [done |].
    intros p Hp.
    destruct (dedupe_loop_spec state avoid Ha all_places ∅ [])
      as (kept' & Hloop' & Hsub & _ & Hiff).
    rewrite Hloop in Hloop'. injection Hloop' as <-.
    split; [apply Hiff in Hp; tauto |].
    apply Hnamed. eapply elem_of_sublist; eassumption.
Qed.

Lemma resolved_place_is_named_by_query_witness :
  ∃ kept,
    (search_agent (sample_world (4 # 10) false)
       {[ "destination" := VStr "Kyoto, Japan";
          "keywords" := VStrs ["Ryoan-ji"; "Zen Garden"];
          "places_to_avoid" := VStrs ["Zen Garden"] ]} []).1 =
      Ok {[ "search_results" := VPlaces kept ]} ∧
    ∀ p, p ∈ kept →
      (name p ∉ ["Zen Garden"]) ∧
      ∃ tc, tc ∈ [ sample_tool_call "Ryoan-ji"; sample_tool_call "Zen Garden";
                   sample_tool_call "Ryoan-ji" ] ∧
            tc_name tc = "query_places_nominatim" ∧
            name p = tc_query tc.
Proof.
  apply (proj2 (resolved_place_is_named_by_query (sample_world (4 # 10) false))
           _ [] "Kyoto, Japan" (VStrs ["Ryoan-ji"; "Zen Garden"]));
    reflexivity.
Defined.

(** ** The agents: claims *)

(** C3.  On a state with a destination, keywords and a list of places
    to avoid, and for whatever tool calls the generator answers with, the
    search agent returns places with pairwise different names, none of
    them named in [places_to_avoid], in the order in which the tool
    returned them; a place is kept exactly when its name is not avoided
    and it is the first place of that name. *)
Theorem search_agent_dedupes_and_filters :
  ∀ (w : World) state h destination keywords avoid tool_calls,
    state !! "destination" = Some (VStr destination) →
    state !! "keywords" = Some keywords →
    state !! "places_to_avoid" = Some (VStrs avoid) →
    llm_gemini_tools w h (search_prompt_of destination keywords) =
      Ok tool_calls →
    ∃ all_places kept h',
      run_tool_calls w tool_calls []
        (h ▷ EvGeminiTools (search_prompt_of destination keywords))
        = (Ok all_places, h') ∧
      search_agent w state h =
        (Ok {[ "search_results" := VPlaces kept ]}, h') ∧
      NoDup (name <$> kept) ∧
      (∀ p, p ∈ kept → name p ∉ avoid) ∧
      kept `sublist_of` all_places ∧
      (∀ p, p ∈ kept ↔ (name p ∉ avoid) ∧ first_of_its_name p all_places).
Proof.
  intros w state h destination keywords avoid tool_calls Hd Hk Ha Hllm.
  destruct (search_agent_run w state h _ _ _ _ Hd Hk Ha Hllm)
    as (all_places & kept & h' & Hcalls & _ & Hloop & Hrun).
  destruct (dedupe_loop_spec state avoid Ha all_places ∅ [])
    as (kept' & Hloop' & Hsub & Hnd & Hiff).
  rewrite Hloop in Hloop'. injection Hloop' as <-.
  exists all_places, kept, h'. split_and!; [done | done | done | | done |].
  - intros p Hp. apply Hiff in Hp. tauto.
  - intros p. rewrite Hiff. pose proof (not_elem_of_empty (C:=gset string) (name p)).
    tauto.
Qed.

Lemma search_agent_dedupes_and_filters_witness :
  ∃ all_places kept h',
    run_tool_calls (sample_world (4 # 10) false)
      [ sample_tool_call "Ryoan-ji"; sample_tool_call "Zen Garden";
        sample_tool_call "Ryoan-ji" ] []
      ([] ▷ EvGeminiTools
              (search_prompt_of "Kyoto, Japan" (VStrs ["Ryoan-ji"; "Zen Garden"])))
      = (Ok all_places, h') ∧
    search_agent (sample_world (4 # 10) false)
      {[ "destination" := VStr "Kyoto, Japan";
         "keywords" := VStrs ["Ryoan-ji"; "Zen Garden"];
         "places_to_avoid" := VStrs ["Zen Garden"] ]} [] =
      (Ok {[ "search_results" := VPlaces kept ]}, h') ∧
    NoDup (name <$> kept) ∧
    (∀ p, p ∈ kept → name p ∉ ["Zen Garden"]) ∧
    kept `sublist_of` all_places ∧
    (∀ p, p ∈ kept ↔
          (name p ∉ ["Zen Garden"]) ∧ first_of_its_name p all_places).
Proof.
  apply (search_agent_dedupes_and_filters (sample_world (4 # 10) false)
           _ [] "Kyoto, Japan" (VStrs ["Ryoan-ji"; "Zen Garden"]));
    reflexivity.
Defined.

(** C4.  On a state with [duration_days = d] the keyword agent makes one
    request to the structured generator, for [max(10, d * 4)] terms: 10
    for one day, 12 for three, 20 for five.  The keywords it returns are
    the generator's list as it came, of whatever length. *)
Theorem vibe_interpreter_requests_target_count :
  ∀ (w : World) state h destination d vibe avoid,
    state !! "destination" = Some destination →
    state !! "duration_days" = Some (VInt d) →
    state !! "vibe" = Some vibe →
    state !! "places_to_avoid" = Some avoid →
    ∃ prompt,
      (vibe_interpreter_agent w state h).2 = h ▷ EvHeroStructured prompt ∧
      vp_target_count prompt = Z.max 10 (d * 4) ∧
      (d = 1 → vp_target_count prompt = 10)%Z ∧
      (d = 3 → vp_target_count prompt = 12)%Z ∧
      (d = 5 → vp_target_count prompt = 20)%Z ∧
      ((1 ≤ d ≤ 2)%Z → vp_target_count prompt = 10%Z) ∧
      ((3 ≤ d)%Z → vp_target_count prompt = (d * 4)%Z) ∧
      (∀ keywords,
         llm_hero_structured w h prompt = Ok keywords →
         (vibe_interpreter_agent w state h).1 =
           Ok {[ "keywords" := VStrs keywords ]}) ∧
      (∀ e,
         llm_hero_structured w h prompt = Raise e →
         (vibe_interpreter_agent w state h).1 = Raise e).
Proof.
  intros w state h destination d vibe avoid Hd Hn Hv Ha.
  exists (vibe_prompt_of destination d vibe avoid).
  rewrite (vibe_interpreter_agent_run w state h _ _ _ _ Hd Hn Hv Ha).
  cbn [fst snd vp_target_count vibe_prompt_of].
  split_and!; try done; try lia.
  - now intros keywords ->.
  - now intros e ->.
Qed.

Lemma vibe_interpreter_requests_target_count_witness :
  ∃ prompt,
    (vibe_interpreter_agent (sample_world (4 # 10) false)
       (<[ "user_feedback" := VStr "Start" ]>
          (model_dump {| rq_destination := "Kyoto, Japan";
                         rq_duration_days := 3;
                         rq_vibe := "zen gardens";
                         rq_places_to_avoid := [] |})) []).2 =
      [] ▷ EvHeroStructured prompt ∧
    vp_target_count prompt = 12%Z.
Proof.
  destruct (vibe_interpreter_requests_target_count
              (sample_world (4 # 10) false)
              (<[ "user_feedback" := VStr "Start" ]>
                 (model_dump {| rq_destination := "Kyoto, Japan";
                                rq_duration_days := 3;
                                rq_vibe := "zen gardens";
                                rq_places_to_avoid := [] |}))
              [] (VStr "Kyoto, Japan") 3 (VStr "zen gardens") (VStrs []))
    as (prompt & Hlog & _ & _ & H3 & _); [reflexivity .. |].
  exists prompt. split; [exact Hlog | exact (H3 eq_refl)].
Defined.

(** ** The workflow: claims *)

Lemma sample_world_answers importance strict :
  generators_answer (sample_world importance strict).
Proof. split_and!; intros h p; eexists; reflexivity. Qed.

(** C1, as the code has it.  The gate node clears [user_feedback]
    whatever it holds, and the condition of the edge that leaves it,
    read on the state with that write applied, ends the run: a run that
    reaches the gate reports the gate's write and stops.
    [check_feedback] by itself routes to the keyword agent exactly when
    the [user_feedback] it reads is non-empty, and to [END] otherwise. *)
Theorem feedback_gate_clears_then_ends :
  ∀ (w : World) (state : gmap string Value) (steps : nat) (h : Log),
    await_feedback state = {[ "user_feedback" := VNone ]} ∧
    dict_get (await_feedback state ∪ state) "user_feedback" = VNone ∧
    next_node await_feedback_node (await_feedback state ∪ state) = END ∧
    stream_from w (S steps) await_feedback_node state h =
      (Ok [ (await_feedback_node, {[ "user_feedback" := VNone ]}) ], h) ∧
    (check_feedback state = Goto vibe_interpreter ↔
     truthy (dict_get state "user_feedback") = true) ∧
    (check_feedback state = END ↔
     truthy (dict_get state "user_feedback") = false).
Proof.
  intros w state steps h. split_and!.
  - reflexivity.
  - unfold dict_get, await_feedback. now rewrite lookup_output_eq.
  - apply check_feedback_after_await.
  - apply stream_from_gate.
  - unfold check_feedback.
    destruct (truthy (dict_get state "user_feedback")); split; congruence.
  - unfold check_feedback.
    destruct (truthy (dict_get state "user_feedback")); split; congruence.
Qed.

(** C1, as stated, fails: with the non-empty feedback "Start" in the
    state at the gate, control does not go back to the keyword agent;
    the run ends with the gate. *)
Lemma feedback_gate_loop_back_counterexample :
  truthy (dict_get sample_gate_state "user_feedback") = true ∧
  next_node await_feedback_node
    (await_feedback sample_gate_state ∪ sample_gate_state)
    ≠ Goto vibe_interpreter ∧
  (stream_from (sample_world (4 # 10) false) recursion_limit
     await_feedback_node sample_gate_state []).1 =
    Ok [ (await_feedback_node, {[ "user_feedback" := VNone ]}) ].
Proof.
  split_and!.
  - reflexivity.
  - rewrite check_feedback_after_await. discriminate.
  - reflexivity.
Qed.

Section OperationsInverted.

Variable w : World.

Lemma start_plan_inv request h response h' :
  start_plan w request h = (Ok response, h') →
  ∃ events,
    app_stream w (<[ "user_feedback" := VStr "Start" ]> (model_dump request)) h
      = (Ok events, h') ∧
    resp_current_state response =
      collect_updates (<[ "user_feedback" := VStr "Start" ]> (model_dump request))
        events.
Proof.
  rewrite start_plan_unfold. cbv zeta.
  destruct (app_stream w _ h) as [[events|e] h1]; [| discriminate].
  intros [= <- <-]. now exists events.
Qed.

Lemma resume_plan_inv request h response h' :
  resume_plan w request h = (Ok response, h') →
  ∃ resume_state events,
    (resume_state =
       <[ "user_feedback" := VStr (rq_user_feedback request) ]>
         (rq_current_state request) ∨
     ∃ avoid p,
       rq_current_state request !! "places_to_avoid" = Some (VStrs avoid) ∧
       resume_state =
         <[ "places_to_avoid" := VStrs (avoid ++ [p]) ]>
           (<[ "user_feedback" := VStr (rq_user_feedback request) ]>
              (rq_current_state request))) ∧
    app_stream w resume_state h = (Ok events, h') ∧
    resp_current_state response = collect_updates resume_state events.
Proof.
  unfold resume_plan. intros Hrun.
  apply lift_bind_inv in Hrun as (resume_state & Hstate & Hrun).
  apply bind_inv in Hrun as (events & h1 & Hstream & Hrun).
  injection Hrun as <- <-.
  exists resume_state, events. split_and!; [| done | done].
  destruct (rq_place_to_avoid request) as [p|]; [| left; congruence].
  destruct (truthy (VStr p)); [| left; congruence].
  right. unfold append_place_to_avoid, getitem in Hstate.
  rewrite lookup_insert_ne in Hstate by done.
  destruct (rq_current_state request !! "places_to_avoid") as [[]|];
    try discriminate.
  injection Hstate as <-. now eexists _, _.
Qed.

End OperationsInverted.

(** C2.  With generators that answer, [start_plan], which seeds
    [user_feedback] with "Start", and [resume_plan] on a state with the
    trip fields, which seeds it with the caller's feedback, both run the
    four nodes of the pipeline once each, in order, and return a state
    whose [user_feedback] is [None]. *)
Theorem run_is_one_pass :
  ∀ w : World,
    generators_answer w →
    (∀ request h,
       ∃ events response h',
         app_stream w
           (<[ "user_feedback" := VStr "Start" ]> (model_dump request)) h
           = (Ok events, h') ∧
         nodes_of events = pipeline ∧
         start_plan w request h = (Ok response, h') ∧
         resp_current_state response !! "user_feedback" = Some VNone) ∧
    (∀ request h,
       has_trip_fields (rq_current_state request) →
       ∃ (resume_state : gmap string Value) events response h',
         resume_state !! "user_feedback" =
           Some (VStr (rq_user_feedback request)) ∧
         app_stream w resume_state h = (Ok events, h') ∧
         nodes_of events = pipeline ∧
         resume_plan w request h = (Ok response, h') ∧
         resp_current_state response !! "user_feedback" = Some VNone).
Proof.
  intros w Hgen. split.
  - intros request h.
    set (initial_input :=
           <[ "user_feedback" := VStr "Start" ]> (model_dump request)).
    assert (Hfields : has_trip_fields initial_input).
    { exists (rq_destination request), (rq_duration_days request),
        (rq_vibe request), (rq_places_to_avoid request).
      unfold initial_input, model_dump. split_and!; by simplify_map_eq. }
    destruct (app_stream_one_pass w initial_input h Hgen Hfields)
      as (keywords & places & content & h' & Hrun).
    eexists _, _, h'. split_and!; [exact Hrun | reflexivity | |].
    + rewrite start_plan_unfold. fold initial_input. cbv zeta.
      rewrite Hrun. reflexivity.
    + cbn [resp_current_state collect_updates foldl snd].
      apply lookup_output_eq.
  - intros request h (d & n & v & a & Hd & Hn & Hv & Ha).
    set (resume_state := resume_state_of request a).
    assert (Hfields : has_trip_fields resume_state).
    { exists d, n, v, (a ++ appended (rq_place_to_avoid request)).
      unfold resume_state.
      rewrite !resume_state_of_other by done.
      rewrite resume_state_of_avoid by done. done. }
    destruct (app_stream_one_pass w resume_state h Hgen Hfields)
      as (keywords & places & content & h' & Hrun).
    exists resume_state. eexists _, _, h'.
    split_and!; [apply resume_state_of_feedback | exact Hrun | reflexivity | |].
    + rewrite (resume_plan_unfold w request h a Ha). fold resume_state.
      cbv zeta. rewrite Hrun. reflexivity.
    + cbn [resp_current_state collect_updates foldl snd].
      apply lookup_output_eq.
Qed.

Lemma run_is_one_pass_witness :
  ∃ events response h',
    app_stream (sample_world (4 # 10) false)
      (<[ "user_feedback" := VStr "Start" ]> (model_dump sample_request)) []
      = (Ok events, h') ∧
    nodes_of events = pipeline ∧
    start_plan (sample_world (4 # 10) false) sample_request [] =
      (Ok response, h') ∧
    resp_current_state response !! "user_feedback" = Some VNone.
Proof.
  exact (proj1 (run_is_one_pass (sample_world (4 # 10) false)
                  (sample_world_answers (4 # 10) false))
               sample_request []).
Defined.

(** C9.  A node returns exactly its declared output field, and merging
    that output leaves every other key of the state as it was.  So the
    state an operation returns has the [destination], [duration_days]
    and [vibe] it was given. *)
Theorem run_leaves_trip_fields_unchanged :
  ∀ w : World,
    (∀ n state h out h',
       run_node w n state h = (Ok out, h') →
       (∃ v, out = {[ output_field n := v ]}) ∧
       ∀ k : string, k ≠ output_field n → (out ∪ state) !! k = state !! k) ∧
    (∀ input h events h',
       app_stream w input h = (Ok events, h') →
       Forall declared_output events ∧
       ∀ final_state (k : string),
         k ∉ ["keywords"; "search_results"; "itinerary_draft"; "user_feedback"] →
         collect_updates final_state events !! k = final_state !! k) ∧
    (∀ request h response h',
       start_plan w request h = (Ok response, h') →
       resp_current_state response !! "destination" =
         Some (VStr (rq_destination request)) ∧
       resp_current_state response !! "duration_days" =
         Some (VInt (rq_duration_days request)) ∧
       resp_current_state response !! "vibe" = Some (VStr (rq_vibe request))) ∧
    (∀ request h response h',
       resume_plan w request h = (Ok response, h') →
       ∀ k : string, k ∈ ["destination"; "duration_days"; "vibe"] →
         resp_current_state response !! k = rq_current_state request !! k).
Proof.
  intros w.
  assert (Hframe : ∀ input h events h',
            app_stream w input h = (Ok events, h') →
            ∀ final_state (k : string),
              k ∉ ["keywords"; "search_results"; "itinerary_draft";
                   "user_feedback"] →
              collect_updates final_state events !! k = final_state !! k).
  { intros input h events h' Hrun final_state k Hk.
    apply collect_updates_frame.
    - eapply app_stream_declared_outputs, Hrun.
    - intros n Heq. apply Hk. subst k.
      destruct n; cbn; rewrite !elem_of_cons; tauto. }
  split_and!.
  - intros n state h out h' Hrun.
    destruct (run_node_output w n state h out h' Hrun) as [v ->].
    split; [now exists v |]. intros k Hk. now apply lookup_output_ne.
  - intros input h events h' Hrun. split; [| eauto].
    eapply app_stream_declared_outputs, Hrun.
  - intros request h response h' Hrun.
    apply start_plan_inv in Hrun as (events & Hrun & ->).
    rewrite !(Hframe _ _ _ _ Hrun)
      by (rewrite !elem_of_cons, elem_of_nil; intros [|[|[|[|]]]]; done).
    clear Hrun Hframe. unfold model_dump. split_and!; by simplify_map_eq.
  - intros request h response h' Hrun k Hk.
    apply resume_plan_inv in Hrun as (resume_state & events & Hstate & Hrun & ->).
    assert (Hne : k ≠ "user_feedback" ∧ k ≠ "places_to_avoid" ∧
                  k ∉ ["keywords"; "search_results"; "itinerary_draft";
                       "user_feedback"]).
    { rewrite !elem_of_cons, elem_of_nil in Hk.
      destruct Hk as [->|[->|[->|[]]]];
        (split_and!; [done | done |]);
        rewrite !elem_of_cons, elem_of_nil; intros [|[|[|[|]]]]; done. }
    destruct Hne as (Hu & Hp & Hout).
    rewrite (Hframe _ _ _ _ Hrun) by exact Hout.
    destruct Hstate as [-> | (avoid & p & _ & ->)];
      now rewrite ?lookup_insert_ne by done.
Qed.

Lemma run_leaves_trip_fields_unchanged_witness :
  ∃ response h',
    start_plan (sample_world (4 # 10) false) sample_request [] =
      (Ok response, h') ∧
    resp_current_state response !! "destination" = Some (VStr "Kyoto, Japan") ∧
    resp_current_state response !! "duration_days" = Some (VInt 3) ∧
    resp_current_state response !! "vibe" = Some (VStr "zen gardens").
Proof.
  set (r := start_plan (sample_world (4 # 10) false) sample_request []).
  assert (Hr : r = (Ok match r.1 with
                       | Ok response => response
                       | Raise _ => {| resp_itinerary_draft := VNone;
                                       resp_current_state := ∅ |}
                       end, r.2)) by (vm_compute; reflexivity).
  eexists _, _. split; [exact Hr |].
  exact (proj1 (proj2 (proj2 (run_leaves_trip_fields_unchanged
                                (sample_world (4 # 10) false))))
               sample_request [] _ _ Hr).
Defined.

(** C8, as the code has it.  [resume_plan] returns the
    [places_to_avoid] it was given with [place_to_avoid] appended when
    that is a non-empty string, and unchanged when it is [None] or the
    empty string.  Over any sequence of resume calls that send back the
    state of the previous response the list only gets longer at its end,
    and no node writes the field. *)
Theorem places_to_avoid_only_grows :
  ∀ w : World,
    (appended None = [] ∧ appended (Some "") = [] ∧
     ∀ p, p ≠ "" → appended (Some p) = [p]) ∧
    (∀ request h response h' avoid,
       rq_current_state request !! "places_to_avoid" = Some (VStrs avoid) →
       resume_plan w request h = (Ok response, h') →
       resp_current_state response !! "places_to_avoid" =
         Some (VStrs (avoid ++ appended (rq_place_to_avoid request)))) ∧
    (∀ calls (state state' : gmap string Value) h h' avoid,
       state !! "places_to_avoid" = Some (VStrs avoid) →
       resume_calls w state calls h = (Ok state', h') →
       state' !! "places_to_avoid" =
         Some (VStrs (avoid ++ concat (map (λ c, appended c.2) calls)))) ∧
    (∀ n state h out h',
       run_node w n state h = (Ok out, h') →
       out !! "places_to_avoid" = None).
Proof.
  intros w.
  assert (Hone : ∀ request h response h' avoid,
    rq_current_state request !! "places_to_avoid" = Some (VStrs avoid) →
    resume_plan w request h = (Ok response, h') →
    resp_current_state response !! "places_to_avoid" =
      Some (VStrs (avoid ++ appended (rq_place_to_avoid request)))).
  { intros request h response h' avoid Ha Hrun.
    rewrite (resume_plan_unfold w request h avoid Ha) in Hrun. cbv zeta in Hrun.
    destruct (app_stream w (resume_state_of request avoid) h)
      as [[events|e] h1] eqn:Hstream; [| discriminate].
    injection Hrun as <- _. cbn [resp_current_state].
    rewrite collect_updates_frame.
    - now apply resume_state_of_avoid.
    - eapply app_stream_declared_outputs, Hstream.
    - now intros []. }
  split_and!.
  - reflexivity.
  - reflexivity.
  - intros p Hp. unfold appended. cbn [truthy].
    destruct (String.eqb_spec p ""); [done | reflexivity].
  - exact Hone.
  - intros calls. induction calls as [|[feedback place] calls IH];
      intros state state' h h' avoid Ha Hrun.
    + injection Hrun as <- _. cbn. now rewrite app_nil_r.
    + cbn [resume_calls] in Hrun.
      apply bind_inv in Hrun as (response & h1 & Hresume & Hrest).
      pose proof (Hone (Build_ResumeRequest state feedback place)
                    _ _ _ avoid Ha Hresume) as Ha1.
      cbn [rq_place_to_avoid] in Ha1.
      rewrite (IH _ _ _ _ _ Ha1 Hrest). cbn [map concat snd].
      now rewrite app_assoc.
  - intros n state h out h' Hrun.
    destruct (run_node_output w n state h out h' Hrun) as [v ->].
    apply lookup_singleton_ne. now destruct n.
Qed.

Lemma places_to_avoid_only_grows_witness :
  ∃ state' h',
    resume_calls (sample_world (4 # 10) false) sample_state
      [ ("more food", Some "Ryoan-ji"); ("slower", None); ("", Some "") ] []
      = (Ok state', h') ∧
    state' !! "places_to_avoid" = Some (VStrs ["Mall"; "Ryoan-ji"]).
Proof.
  set (r := resume_calls (sample_world (4 # 10) false) sample_state
              [ ("more food", Some "Ryoan-ji"); ("slower", None);
                ("", Some "") ] []).
  assert (Hr : r = (Ok match r.1 with Ok state' => state' | Raise _ => ∅ end,
                    r.2)) by (vm_compute; reflexivity).
  eexists _, _. split; [exact Hr |].
  exact (proj1 (proj2 (proj2 (places_to_avoid_only_grows
                                (sample_world (4 # 10) false))))
               _ sample_state _ [] _ ["Mall"] eq_refl Hr).
Defined.

(** C8, as stated, fails: the empty string is a [place_to_avoid] that is
    present, and it is not appended. *)
Lemma places_to_avoid_empty_string_counterexample :
  let request := {| rq_current_state := sample_state;
                    rq_user_feedback := "more food";
                    rq_place_to_avoid := Some "" |} in
  rq_place_to_avoid request = Some "" ∧
  returned_field "places_to_avoid"
    (resume_plan (sample_world (4 # 10) false) request []) =
    Some (VStrs ["Mall"]) ∧
  returned_field "places_to_avoid"
    (resume_plan (sample_world (4 # 10) false) request []) ≠
    Some (VStrs ["Mall"; ""]).
Proof.
  cbv zeta. split_and!; [reflexivity | by vm_compute |].
  intros H. vm_compute in H. discriminate H.
Qed.

(** * Further properties of the code *)

(** ** The tool's external calls *)

Lemma query_places_nominatim_log w query location_name h :
  ∃ evs,
    (query_places_nominatim w query location_name h).2 = h ++ evs ∧
    tool_events w query location_name h evs.
Proof.
  destruct (geocode w h location_name true) as [[city|]|e] eqn:Hcity.
  - destruct (geocode w (at_strict_search h location_name)
                (query +:+ ", " +:+ location_name) false)
      as [[place|]|e] eqn:Hstrict.
    + eexists. split; [| right; left; reflexivity].
      rewrite (tool_of_body _ _ _ _ _ _
                 (body_strict_found _ _ _ _ _ _ Hcity Hstrict)).
      unfold at_strict_search. cbn [snd]. now rewrite <- !app_assoc.
    + destruct (geocode_many w (at_global_search h query location_name) query 5)
        as [candidates|e] eqn:Hmany.
      * pose proof (body_global_search _ _ _ _ _ _ Hcity Hstrict Hmany) as Hbody.
        destruct (scan_candidates_prefix w (coords_of city) (anchor_limit city)
                    candidates
                    (at_global_search h query location_name
                       ▷ EvGeocodeMany query 5))
          as (evaluated & Hpre & Hlog & _).
        exists ([ EvGeocode location_name true; EvSleep;
                  EvGeocode (query +:+ ", " +:+ location_name) false; EvSleep;
                  EvGeocodeMany query 5 ]
                ++ geodesic_events (coords_of city) evaluated).
        split.
        -- destruct (scan_candidates _ _ _ _ _) as [[[l|]|e] h'];
             rewrite (tool_of_body _ _ _ _ _ _ Hbody); cbn [snd] in *;
             rewrite Hlog; unfold at_global_search, at_strict_search;
             now rewrite <- !app_assoc.
        -- right; right. exists city, evaluated.
           split_and!; [done | done | | | done].
           ++ intros ? Heq. rewrite Hmany in Heq. now injection Heq as <-.
           ++ intros ? Heq. rewrite Hmany in Heq. discriminate.
      * eexists. split.
        -- rewrite (tool_of_body _ _ _ _ _ _
                      (body_global_raises _ _ _ _ _ _ Hcity Hstrict Hmany)).
           unfold at_global_search, at_strict_search. cbn [snd].
           now rewrite <- !app_assoc.
        -- right; right. exists city, [].
           split_and!; [done | done | | done | done].
           intros ? Heq. rewrite Hmany in Heq. discriminate.
    + eexists. split; [| right; left; reflexivity].
      rewrite (tool_of_body _ _ _ _ _ _
                 (body_strict_raises _ _ _ _ _ _ Hcity Hstrict)).
      unfold at_strict_search. cbn [snd]. now rewrite <- !app_assoc.
  - eexists. split; [| left; reflexivity].
    now rewrite (tool_of_body _ _ _ _ _ _ (body_anchor_missing _ _ _ _ Hcity)).
  - eexists. split; [| left; reflexivity].
    now rewrite (tool_of_body _ _ _ _ _ _ (body_anchor_raises _ _ _ _ _ Hcity)).
Qed.

Lemma geodesic_events_no_request city_coords l :
  List.filter geocoder_request (geodesic_events city_coords l) = [] ∧
  List.filter is_sleep (geodesic_events city_coords l) = [].
Proof.
  unfold geodesic_events. induction l as [|c l IH]; [done |]. cbn. exact IH.
Qed.

(** One invocation of the tool asks the geocoder at most three times and
    waits at most twice: first for the anchor city, without a delay, then
    after a delay for the strict search, then after another delay for
    the global search with limit 5.  The only other calls are distance
    computations for a prefix of the global candidates. *)
Theorem tool_call_external_calls :
  ∀ (w : World) (query location_name : string) (h : Log),
    ∃ evs,
      (query_places_nominatim w query location_name h).2 = h ++ evs ∧
      tool_events w query location_name h evs ∧
      head evs = Some (EvGeocode location_name true) ∧
      (length (List.filter geocoder_request evs) ≤ 3)%nat ∧
      (length (List.filter is_sleep evs) ≤ 2)%nat.
Proof.
  intros w query location_name h.
  destruct (query_places_nominatim_log w query location_name h)
    as (evs & Hlog & Hshape).
  exists evs. split_and!; [done | done | ..];
    destruct Hshape as [-> | [-> | (city & evaluated & _ & _ & _ & _ & ->)]];
    try (cbn; done || lia).
  - rewrite List.filter_app, (proj1 (geodesic_events_no_request _ _)). cbn. lia.
  - rewrite List.filter_app, (proj2 (geodesic_events_no_request _ _)). cbn. lia.
Qed.

Lemma scan_candidates_inv w city_coords limit candidates : ∀ h r h',
  scan_candidates w city_coords limit candidates h = (Ok r, h') →
  match r with
  | Some c => ∃ l1 l2, candidates = l1 ++ c :: l2 ∧
                       Forall (beyond w city_coords limit) l1 ∧
                       within w city_coords limit c
  | None => Forall (beyond w city_coords limit) candidates
  end.
Proof.
  induction candidates as [|c rest IH]; intros h r h' Hscan.
  - injection Hscan as <- _. constructor.
  - cbn [scan_candidates] in Hscan. rewrite bind_call in Hscan.
    fold (coords_of c) in Hscan.
    destruct (geodesic w city_coords (coords_of c)) as [d|e] eqn:Hd;
      [| discriminate].
    destruct (Qle_bool d limit) eqn:Hle.
    + injection Hscan as <- _. exists [], rest. split_and!; [done | constructor |].
      exists d. split; [done | now apply Qle_bool_iff].
    + assert (Hc : beyond w city_coords limit c).
      { exists d. split; [done | now apply Qle_bool_false]. }
      apply IH in Hscan. destruct r as [c'|].
      * destruct Hscan as (l1 & l2 & -> & Hfar & Hnear).
        exists (c :: l1), l2. split_and!; [done | now constructor | done].
      * now constructor.
Qed.

(** A place the tool returns is built from a location the geocoder
    returned for this query: the strict match, or else the first global
    candidate that is within the anchor's limit, all candidates before it
    having been measured beyond the limit.  Nothing beyond the limit is
    ever returned from the global search. *)
Theorem returned_place_provenance :
  ∀ (w : World) (query location_name : string) (h : Log) (p : Place)
    (others : list Place),
    (query_places_nominatim w query location_name h).1 = Ok (p :: others) →
    others = [] ∧
    ∃ city loc,
      geocode w h location_name true = Ok (Some city) ∧
      p = place_of query loc ∧
      (geocode w (at_strict_search h location_name)
         (query +:+ ", " +:+ location_name) false = Ok (Some loc) ∨
       geocode w (at_strict_search h location_name)
         (query +:+ ", " +:+ location_name) false = Ok None ∧
       ∃ l1 l2,
         geocode_many w (at_global_search h query location_name) query 5 =
           Ok (l1 ++ loc :: l2) ∧
         Forall (beyond w (coords_of city) (anchor_limit city)) l1 ∧
         within w (coords_of city) (anchor_limit city) loc).
Proof.
  intros w query location_name h p others Hres.
  destruct (geocode w h location_name true) as [[city|]|e] eqn:Hcity.
  - destruct (geocode w (at_strict_search h location_name)
                (query +:+ ", " +:+ location_name) false)
      as [[place|]|e] eqn:Hstrict.
    + rewrite (tool_of_body _ _ _ _ _ _
                 (body_strict_found _ _ _ _ _ _ Hcity Hstrict)) in Hres.
      injection Hres as <- <-. split; [done |]. exists city, place. auto.
    + destruct (geocode_many w (at_global_search h query location_name) query 5)
        as [candidates|e] eqn:Hmany.
      * pose proof (body_global_search _ _ _ _ _ _ Hcity Hstrict Hmany) as Hbody.
        destruct (scan_candidates _ _ _ _ _) as [[[loc|]|e] h'] eqn:Hscan;
          rewrite (tool_of_body _ _ _ _ _ _ Hbody) in Hres;
          [| discriminate ..].
        injection Hres as <- <-. split; [done |]. exists city, loc.
        split_and!; [done | done |]. right. split; [done |].
        apply scan_candidates_inv in Hscan as (l1 & l2 & -> & Hfar & Hnear).
        now exists l1, l2.
      * rewrite (tool_of_body _ _ _ _ _ _
                   (body_global_raises _ _ _ _ _ _ Hcity Hstrict Hmany)) in Hres.
        discriminate.
    + rewrite (tool_of_body _ _ _ _ _ _
                 (body_strict_raises _ _ _ _ _ _ Hcity Hstrict)) in Hres.
      discriminate.
  - rewrite (tool_of_body _ _ _ _ _ _ (body_anchor_missing _ _ _ _ Hcity)) in Hres.
    discriminate.
  - rewrite (tool_of_body _ _ _ _ _ _ (body_anchor_raises _ _ _ _ _ Hcity)) in Hres.
    discriminate.
Qed.

Lemma returned_place_provenance_witness :
  ∃ city loc,
    geocode (sample_world (4 # 10) false) [] "Kyoto, Japan" true =
      Ok (Some city) ∧
    place_of "Ryoan-ji" sample_candidate = place_of "Ryoan-ji" loc ∧
    (geocode (sample_world (4 # 10) false)
       (at_strict_search [] "Kyoto, Japan")
       ("Ryoan-ji" +:+ ", " +:+ "Kyoto, Japan") false = Ok (Some loc) ∨
     geocode (sample_world (4 # 10) false)
       (at_strict_search [] "Kyoto, Japan")
       ("Ryoan-ji" +:+ ", " +:+ "Kyoto, Japan") false = Ok None ∧
     ∃ l1 l2,
       geocode_many (sample_world (4 # 10) false)
         (at_global_search [] "Ryoan-ji" "Kyoto, Japan") "Ryoan-ji" 5 =
         Ok (l1 ++ loc :: l2) ∧
       Forall (beyond (sample_world (4 # 10) false) (coords_of city)
                 (anchor_limit city)) l1 ∧
       within (sample_world (4 # 10) false) (coords_of city)
         (anchor_limit city) loc).
Proof.
  exact (proj2 (returned_place_provenance (sample_world (4 # 10) false)
                  "Ryoan-ji" "Kyoto, Japan" []
                  (place_of "Ryoan-ji" sample_candidate) [] eq_refl)).
Defined.

(** The limit that decides a lone global candidate at distance [d]: 200
    km when the anchor has no importance score (the default 0.5 applies)
    or a score of at most 0.75, the value 0.75 included, and 30 km above
    that.  A candidate exactly at the limit is accepted. *)
Theorem lone_candidate_decision :
  ∀ (w : World) (query location_name : string) (h : Log)
    (city c : Location) (d : Q),
    geocode w h location_name true = Ok (Some city) →
    geocode w (at_strict_search h location_name)
      (query +:+ ", " +:+ location_name) false = Ok None →
    geocode_many w (at_global_search h query location_name) query 5 = Ok [c] →
    geodesic w (coords_of city) (coords_of c) = Ok d →
    let result := (query_places_nominatim w query location_name h).1 in
    let decided_by (limit : Q) :=
      ((d <= limit)%Q → result = Ok [place_of query c]) ∧
      (¬ (d <= limit)%Q → result = Ok []) in
    (raw_importance city = None → decided_by 200%Q) ∧
    (∀ i, raw_importance city = Some i → (i <= 3 # 4)%Q → decided_by 200%Q) ∧
    (∀ i, raw_importance city = Some i → (3 # 4 < i)%Q → decided_by 30%Q).
Proof.
  intros w query location_name h city c d Hcity Hstrict Hmany Hd result decided_by.
  assert (Hdec : decided_by (anchor_limit city)).
  { pose proof (body_global_search _ _ _ _ _ _ Hcity Hstrict Hmany) as Hbody.
    cbn [scan_candidates] in Hbody. rewrite bind_call in Hbody.
    fold (coords_of c) in Hbody. rewrite Hd in Hbody.
    unfold decided_by, result. split; intros Hle.
    - apply Qle_bool_iff in Hle. rewrite Hle in Hbody.
      now rewrite (tool_of_body _ _ _ _ _ _ Hbody).
    - apply Qle_bool_false in Hle. rewrite Hle in Hbody.
      now rewrite (tool_of_body _ _ _ _ _ _ Hbody). }
  unfold anchor_limit in Hdec. split_and!.
  - intros Hnone. rewrite Hnone in Hdec. cbn [default] in Hdec.
    now rewrite radius_limit_regional in Hdec by discriminate.
  - intros i Hi Hle. rewrite Hi in Hdec. cbn [default] in Hdec.
    now rewrite radius_limit_regional in Hdec by assumption.
  - intros i Hi Hlt. rewrite Hi in Hdec. cbn [default] in Hdec.
    now rewrite radius_limit_megacity in Hdec by assumption.
Qed.

Lemma lone_candidate_decision_witness :
  (query_places_nominatim (sample_world (3 # 4) false)
     "Ryoan-ji" "Kyoto, Japan" []).1 =
  Ok [place_of "Ryoan-ji" sample_candidate].
Proof.
  pose proof (lone_candidate_decision (sample_world (3 # 4) false)
                "Ryoan-ji" "Kyoto, Japan" [] (sample_city (3 # 4))
                sample_candidate (45 # 1)%Q eq_refl eq_refl eq_refl eq_refl)
    as H.
  cbv zeta in H. destruct H as (_ & H & _).
  apply (H (3 # 4)%Q eq_refl); discriminate.
Defined.

(** ** The search agent: tool calls, missing keys, the prompt *)

Lemma append_cons c (s t : string) : String c s +:+ t = String c (s +:+ t).
Proof. reflexivity. Qed.

Lemma append_empty_l (t : string) : "" +:+ t = t.
Proof. reflexivity. Qed.

Lemma prefix_occurs sub : ∀ s,
  String.prefix sub s = true ↔ ∃ post, s = sub +:+ post.
Proof.
  induction sub as [|a sub IH]; intros s.
  - split; [intros _; now exists s | intros _; now destruct s].
  - destruct s as [|b s]; cbn [String.prefix].
    + split; [discriminate | intros [post Hpost]; discriminate].
    + destruct (Ascii.ascii_dec a b) as [-> | Hne].
      * rewrite IH. split; intros [post Hpost]; exists post;
          rewrite append_cons in *; congruence.
      * split; [discriminate |]. intros [post Hpost].
        rewrite append_cons in Hpost. congruence.
Qed.

Lemma contains_occurs sub : ∀ s, contains sub s = true ↔ occurs_in sub s.
Proof.
  induction s as [|c s IH]; cbn [contains]; rewrite orb_true_iff, prefix_occurs.
  - split.
    + intros [[post Hpost] | ?]; [| discriminate]. now exists "", post.
    + intros (pre & post & Heq). left. destruct pre; [| discriminate].
      now exists post.
  - rewrite IH. split.
    + intros [[post Hpost] | (pre & post & ->)].
      * now exists "", post.
      * now exists (String c pre), post.
    + intros ([|c' pre] & post & Heq).
      * left. now exists post.
      * right. rewrite append_cons in Heq. injection Heq as -> ->.
        now exists pre, post.
Qed.

Section SearchAgentEdges.

Variable w : World.

Lemma run_tool_calls_skips_other_names tool_calls : ∀ all_places h,
  run_tool_calls w tool_calls all_places h =
  run_tool_calls w (List.filter names_the_tool tool_calls) all_places h.
Proof.
  induction tool_calls as [|tc rest IH]; intros all_places h; [done |].
  cbn [run_tool_calls List.filter]. unfold names_the_tool at 1.
  destruct (String.eqb (tc_name tc) "query_places_nominatim") eqn:Hname.
  - cbn [run_tool_calls]. rewrite Hname, !bind_unfold.
    destruct (query_places_nominatim w _ _ h) as [[out|e] h1]; [apply IH | done].
  - apply IH.
Qed.

Lemma run_tool_calls_bound tool_calls : ∀ all_places h,
  ∃ found evs,
    run_tool_calls w tool_calls all_places h =
      (Ok (all_places ++ found), h ++ evs) ∧
    (length found ≤ length (List.filter names_the_tool tool_calls))%nat ∧
    (List.filter names_the_tool tool_calls = [] → evs = []).
Proof.
  induction tool_calls as [|tc rest IH]; intros all_places h.
  - exists [], []. cbn. rewrite !app_nil_r. split_and!; [done | lia | done].
  - replace (List.filter names_the_tool (tc :: rest))
      with (if String.eqb (tc_name tc) "query_places_nominatim"
            then tc :: List.filter names_the_tool rest
            else List.filter names_the_tool rest) by reflexivity.
    cbn [run_tool_calls].
    destruct (String.eqb (tc_name tc) "query_places_nominatim") eqn:Hname.
    + rewrite bind_unfold.
      destruct (query_places_nominatim_log w (tc_query tc)
                  (tc_location_name tc) h) as (evs1 & Hlog & _).
      pose proof (query_places_nominatim_shape w (tc_query tc)
                    (tc_location_name tc) h) as Hshape.
      destruct (query_places_nominatim w (tc_query tc) (tc_location_name tc) h)
        as [r h1]. cbn [fst snd] in *. subst h1.
      assert (∃ out, r = Ok out ∧ (length out ≤ 1)%nat) as (out & -> & Hlen).
      { destruct Hshape as [-> | [l ->]]; eexists; (split; [done | cbn; lia]). }
      destruct (IH (all_places ++ out) (h ++ evs1))
        as (found & evs & Hrun & Hbound & _).
      exists (out ++ found), (evs1 ++ evs). rewrite Hrun, !app_assoc.
      split_and!; [done | | discriminate].
      rewrite length_app. cbn [length]. lia.
    + destruct (IH all_places h) as (found & evs & Hrun & Hbound & Hnone).
      now exists found, evs.
Qed.

Variable state : gmap string Value.
Variables (h : Log) (destination : string) (keywords : Value).
Hypothesis Hdestination : state !! "destination" = Some (VStr destination).
Hypothesis Hkeywords : state !! "keywords" = Some keywords.

(** The run of the search agent up to the deduplication loop. *)
Lemma search_agent_unfold :
  search_agent w state h =
  match llm_gemini_tools w h (search_prompt_of destination keywords) with
  | Ok tool_calls =>
      match run_tool_calls w tool_calls []
              (h ▷ EvGeminiTools (search_prompt_of destination keywords)) with
      | (Ok all_places, h') =>
          match dedupe_loop state all_places ∅ [] with
          | Ok final_places =>
              (Ok {[ "search_results" := VPlaces final_places ]}, h')
          | Raise e => (Raise e, h')
          end
      | (Raise e, h') => (Raise e, h')
      end
  | Raise e =>
      (Raise e, h ▷ EvGeminiTools (search_prompt_of destination keywords))
  end.
Proof.
  unfold search_agent, getitem. rewrite Hdestination, Hkeywords.
  cbn [mbind Res_bind as_str]. rewrite !bind_lift_Ok, bind_call.
  fold (location_fixed_of destination).
  fold (search_prompt_of destination keywords).
  destruct (llm_gemini_tools w h _) as [tool_calls|e]; [| done].
  rewrite bind_unfold.
  destruct (run_tool_calls w tool_calls [] _) as [[all_places|e] h']; [| done].
  unfold mbind, M_bind, lift.
  now destruct (dedupe_loop state all_places ∅ []).
Qed.

End SearchAgentEdges.

(** Without a readable [places_to_avoid] the loop can only skip. *)
Lemma dedupe_loop_unreadable state e all_places : ∀ seen final_places,
  getitem state "places_to_avoid" ≫= as_strs = Raise e →
  dedupe_loop state all_places seen final_places =
  if forallb (λ p, bool_decide (name p ∈ seen)) all_places
  then Ok final_places else Raise e.
Proof.
  intros seen final_places Hget.
  induction all_places as [|p rest IH]; [done |].
  cbn [dedupe_loop forallb].
  destruct (decide (name p ∈ seen)) as [Hin | Hin].
  - rewrite bool_decide_eq_true_2 by done. exact IH.
  - rewrite bool_decide_eq_false_2 by done. now rewrite Hget.
Qed.

(** The search agent keeps at most one place per tool call that names
    the tool.  Calls under another name are skipped without any external
    call, and when no call names the tool the agent returns an empty
    [search_results] right after the generator's answer. *)
Theorem search_results_bounded_by_tool_calls :
  ∀ (w : World) state h destination keywords avoid tool_calls,
    state !! "destination" = Some (VStr destination) →
    state !! "keywords" = Some keywords →
    state !! "places_to_avoid" = Some (VStrs avoid) →
    llm_gemini_tools w h (search_prompt_of destination keywords) =
      Ok tool_calls →
    (∀ all_places h1,
       run_tool_calls w tool_calls all_places h1 =
       run_tool_calls w (List.filter names_the_tool tool_calls) all_places h1) ∧
    (∃ kept,
       (search_agent w state h).1 = Ok {[ "search_results" := VPlaces kept ]} ∧
       (length kept ≤ length (List.filter names_the_tool tool_calls))%nat) ∧
    (List.filter names_the_tool tool_calls = [] →
     search_agent w state h =
       (Ok {[ "search_results" := VPlaces [] ]},
        h ▷ EvGeminiTools (search_prompt_of destination keywords))).
Proof.
  intros w state h destination keywords avoid tool_calls Hd Hk Ha Hllm.
  pose proof (search_agent_unfold w state h destination keywords Hd Hk) as Hrun.
  rewrite Hllm in Hrun.
  destruct (run_tool_calls_bound w tool_calls []
              (h ▷ EvGeminiTools (search_prompt_of destination keywords)))
    as (found & evs & Hcalls & Hbound & Hnone).
  cbn [app] in Hcalls. rewrite Hcalls in Hrun.
  destruct (dedupe_loop_spec state avoid Ha found ∅ [])
    as (kept & Hloop & Hsub & _).
  cbn [app] in Hloop. rewrite Hloop in Hrun.
  split_and!.
  - intros all_places h1. apply run_tool_calls_skips_other_names.
  - exists kept. rewrite Hrun. split; [done |].
    apply sublist_length in Hsub. lia.
  - intros Hnil. rewrite Hrun, (Hnone Hnil), app_nil_r.
    rewrite Hnil in Hbound. destruct found; [| cbn in Hbound; lia].
    apply sublist_nil_r in Hsub. now subst kept.
Qed.

Lemma search_results_bounded_by_tool_calls_witness :
  ∃ kept,
    (search_agent (sample_world (4 # 10) false)
       {[ "destination" := VStr "Kyoto, Japan";
          "keywords" := VStrs ["Ryoan-ji"; "Zen Garden"];
          "places_to_avoid" := VStrs ["Zen Garden"] ]} []).1 =
      Ok {[ "search_results" := VPlaces kept ]} ∧
    (length kept ≤ 3)%nat.
Proof.
  refine (proj1 (proj2 (search_results_bounded_by_tool_calls
                          (sample_world (4 # 10) false) _ []
                          "Kyoto, Japan" (VStrs ["Ryoan-ji"; "Zen Garden"])
                          ["Zen Garden"]
                          [ sample_tool_call "Ryoan-ji";
                            sample_tool_call "Zen Garden";
                            sample_tool_call "Ryoan-ji" ] _ _ _ _)));
    reflexivity.
Defined.

(** The search agent reads [places_to_avoid] only when the tool calls
    found a place.  On a state without that key it returns an empty
    [search_results] when nothing was found, and raises the key error
    only after all the tool calls have been made when something was. *)
Theorem places_to_avoid_is_read_for_found_places_only :
  ∀ (w : World) state h destination keywords tool_calls all_places h',
    state !! "destination" = Some (VStr destination) →
    state !! "keywords" = Some keywords →
    state !! "places_to_avoid" = None →
    llm_gemini_tools w h (search_prompt_of destination keywords) =
      Ok tool_calls →
    run_tool_calls w tool_calls []
      (h ▷ EvGeminiTools (search_prompt_of destination keywords))
      = (Ok all_places, h') →
    (all_places = [] →
     search_agent w state h = (Ok {[ "search_results" := VPlaces [] ]}, h')) ∧
    (all_places ≠ [] →
     search_agent w state h = (Raise (KeyError "places_to_avoid"), h')).
Proof.
  intros w state h destination keywords tool_calls all_places h'
    Hd Hk Ha Hllm Hcalls.
  rewrite (search_agent_unfold w state h destination keywords Hd Hk).
  rewrite Hllm, Hcalls.
  rewrite (dedupe_loop_unreadable state (KeyError "places_to_avoid"))
    by (unfold getitem; now rewrite Ha).
  split.
  - now intros ->.
  - intros Hne. destruct all_places as [|p rest]; [done |].
    cbn [forallb]. rewrite bool_decide_eq_false_2; [done |].
    apply not_elem_of_empty.
Qed.

Lemma places_to_avoid_is_read_for_found_places_only_witness :
  (search_agent (sample_world (4 # 10) false)
     {[ "destination" := VStr "Kyoto, Japan";
        "keywords" := VStrs ["Ryoan-ji"; "Zen Garden"] ]} []).1 =
  Raise (KeyError "places_to_avoid").
Proof.
  set (calls := [ sample_tool_call "Ryoan-ji"; sample_tool_call "Zen Garden";
                  sample_tool_call "Ryoan-ji" ]).
  set (prompt := search_prompt_of "Kyoto, Japan"
                   (VStrs ["Ryoan-ji"; "Zen Garden"])).
  set (r := run_tool_calls (sample_world (4 # 10) false) calls []
              ([] ▷ EvGeminiTools prompt)).
  assert (Hr : r = (Ok match r.1 with Ok l => l | Raise _ => [] end, r.2))
    by (vm_compute; reflexivity).
  pose proof (places_to_avoid_is_read_for_found_places_only
                (sample_world (4 # 10) false)
                {[ "destination" := VStr "Kyoto, Japan";
                   "keywords" := VStrs ["Ryoan-ji"; "Zen Garden"] ]}
                [] "Kyoto, Japan"
                (VStrs ["Ryoan-ji"; "Zen Garden"]) calls
                match r.1 with Ok l => l | Raise _ => [] end r.2) as H.
  destruct H as [_ H]; [reflexivity .. | exact Hr |].
  rewrite H; [reflexivity | by vm_compute].
Defined.

Lemma search_agent_log_extends w state h destination keywords :
  state !! "destination" = Some (VStr destination) →
  state !! "keywords" = Some keywords →
  ∃ evs,
    (search_agent w state h).2 =
    h ++ EvGeminiTools (search_prompt_of destination keywords) :: evs.
Proof.
  intros Hd Hk. rewrite (search_agent_unfold w state h destination keywords Hd Hk).
  destruct (llm_gemini_tools w h _) as [tool_calls|e]; [| now exists []].
  destruct (run_tool_calls_bound w tool_calls []
              (h ▷ EvGeminiTools (search_prompt_of destination keywords)))
    as (found & evs & -> & _).
  exists evs. rewrite <- app_assoc.
  now destruct (dedupe_loop state ([] ++ found) ∅ []).
Qed.



(** ** A pass over the pipeline, taken apart *)

Lemma dedupe_loop_inv state all_places r :
  dedupe_loop state all_places ∅ [] = Ok r →
  r `sublist_of` all_places ∧
  NoDup (name <$> r) ∧
  match state !! "places_to_avoid" with
  | Some (VStrs avoid) => ∀ p, p ∈ r → name p ∉ avoid
  | _ => r = []
  end.
Proof.
  intros Hloop.
  destruct (state !! "places_to_avoid") as [v|] eqn:Ha.
  - destruct v as [| | |avoid|];
      try (rewrite (dedupe_loop_unreadable state TypeError) in Hloop
             by (unfold getitem; now rewrite Ha);
           destruct (forallb _ all_places); [| discriminate];
           injection Hloop as <-;
           split_and!; [apply sublist_nil_l | constructor | done]).
    destruct (dedupe_loop_spec state avoid Ha all_places ∅ [])
      as (kept & Hspec & Hsub & Hnd & Hiff).
    rewrite Hspec in Hloop. injection Hloop as <-.
    split_and!; [done | done |]. intros p Hp. apply Hiff in Hp. tauto.
  - rewrite (dedupe_loop_unreadable state (KeyError "places_to_avoid"))
      in Hloop by (unfold getitem; now rewrite Ha).
    destruct (forallb _ all_places); [| discriminate].
    injection Hloop as <-.
    split_and!; [apply sublist_nil_l | constructor | done].
Qed.

Section PassInverted.

Variable w : World.

Lemma vibe_interpreter_agent_inv state h out h' :
  vibe_interpreter_agent w state h = (Ok out, h') →
  ∃ destination duration_days vibe avoid keywords,
    state !! "destination" = Some destination ∧
    state !! "duration_days" = Some (VInt duration_days) ∧
    state !! "vibe" = Some vibe ∧
    state !! "places_to_avoid" = Some avoid ∧
    llm_hero_structured w h
      (vibe_prompt_of destination duration_days vibe avoid) = Ok keywords ∧
    out = {[ "keywords" := VStrs keywords ]} ∧
    h' = h ▷ EvHeroStructured
               (vibe_prompt_of destination duration_days vibe avoid).
Proof.
  unfold vibe_interpreter_agent, getitem. intros Hrun.
  destruct (state !! "destination") as [d|]; [| discriminate].
  destruct (state !! "duration_days") as [[| |n| |]|]; try discriminate.
  destruct (state !! "vibe") as [v|]; [| discriminate].
  destruct (state !! "places_to_avoid") as [a|]; [| discriminate].
  cbn [mbind Res_bind as_int] in Hrun.
  rewrite !bind_lift_Ok, bind_call in Hrun.
  fold (vibe_prompt_of d n v a) in Hrun.
  destruct (llm_hero_structured w h (vibe_prompt_of d n v a)) as [kws|e] eqn:Hllm;
    [| discriminate].
  injection Hrun as <- <-. now exists d, n, v, a, kws.
Qed.

Lemma search_agent_inv state h out h' :
  search_agent w state h = (Ok out, h') →
  ∃ destination keywords tool_calls all_places kept,
    state !! "destination" = Some (VStr destination) ∧
    state !! "keywords" = Some keywords ∧
    llm_gemini_tools w h (search_prompt_of destination keywords) =
      Ok tool_calls ∧
    run_tool_calls w tool_calls []
      (h ▷ EvGeminiTools (search_prompt_of destination keywords))
      = (Ok all_places, h') ∧
    dedupe_loop state all_places ∅ [] = Ok kept ∧
    out = {[ "search_results" := VPlaces kept ]}.
Proof.
  intros Hrun.
  assert (∃ d, state !! "destination" = Some (VStr d)) as [d Hd].
  { unfold search_agent, getitem in Hrun.
    destruct (state !! "destination") as [[]|]; try discriminate. eauto. }
  assert (∃ kw, state !! "keywords" = Some kw) as [kw Hk].
  { unfold search_agent, getitem in Hrun. rewrite Hd in Hrun.
    destruct (state !! "keywords"); [eauto | discriminate]. }
  rewrite (search_agent_unfold w state h d kw Hd Hk) in Hrun.
  destruct (llm_gemini_tools w h _) as [calls|e] eqn:Hllm; [| discriminate].
  destruct (run_tool_calls w calls [] _) as [[all_places|e] h1] eqn:Hcalls;
    [| discriminate].
  destruct (dedupe_loop state all_places ∅ []) as [kept|e] eqn:Hloop;
    [| discriminate].
  injection Hrun as <- <-. now exists d, kw, calls, all_places, kept.
Qed.

Lemma itinerary_agent_inv state h out h' :
  itinerary_agent w state h = (Ok out, h') →
  ∃ destination duration_days vibe results content,
    state !! "destination" = Some destination ∧
    state !! "duration_days" = Some duration_days ∧
    state !! "vibe" = Some vibe ∧
    state !! "search_results" = Some results ∧
    llm_hero w h {| ip_destination := destination;
                    ip_duration_days := duration_days;
                    ip_vibe := vibe;
                    ip_search_results := results |} = Ok content ∧
    out = {[ "itinerary_draft" := VStr content ]} ∧
    h' = h ▷ EvHero {| ip_destination := destination;
                       ip_duration_days := duration_days;
                       ip_vibe := vibe;
                       ip_search_results := results |}.
Proof.
  unfold itinerary_agent, getitem. intros Hrun.
  destruct (state !! "destination") as [d|]; [| discriminate].
  destruct (state !! "duration_days") as [n|]; [| discriminate].
  destruct (state !! "vibe") as [v|]; [| discriminate].
  destruct (state !! "search_results") as [r|]; [| discriminate].
  rewrite !bind_lift_Ok, bind_call in Hrun. cbn zeta in Hrun.
  destruct (llm_hero w h _) as [content|e] eqn:Hllm; [| discriminate].
  injection Hrun as <- <-. now exists d, n, v, r, content.
Qed.

(** A run that returns is the three agents, each on the state merged so
    far, and the gate. *)
Lemma app_stream_inv input h events h' :
  app_stream w input h = (Ok events, h') →
  ∃ o1 o2 o3 h1 h2,
    let state := filter (λ kv, kv.1 ∈ schema_keys) input in
    vibe_interpreter_agent w state h = (Ok o1, h1) ∧
    search_agent w (o1 ∪ state) h1 = (Ok o2, h2) ∧
    itinerary_agent w (o2 ∪ (o1 ∪ state)) h2 = (Ok o3, h') ∧
    events = [ (vibe_interpreter, o1); (search_agent_node, o2);
               (itinerary_agent_node, o3);
               (await_feedback_node, {[ "user_feedback" := VNone ]}) ].
Proof.
  unfold app_stream. change recursion_limit with (4 + 21)%nat.
  rewrite stream_from_entry. intros Hrun.
  apply bind_inv in Hrun as (o1 & h1 & Hvibe & Hrun).
  apply bind_inv in Hrun as (o2 & h2 & Hsearch & Hrun).
  apply bind_inv in Hrun as (o3 & h3 & Hitin & Hrun).
  injection Hrun as <- <-. now exists o1, o2, o3, h1, h2.
Qed.

Lemma channels_lookup (input : gmap string Value) (k : string) :
  k ∈ schema_keys →
  filter (λ kv, kv.1 ∈ schema_keys) input !! k = input !! k.
Proof.
  intros Hk. rewrite map_lookup_filter.
  destruct (input !! k) as [v|]; [| done]. cbn.
  now rewrite option_guard_True.
Qed.

(** The state a returning run leaves behind, for any input. *)
Lemma app_stream_final_state input h events h' :
  app_stream w input h = (Ok events, h') →
  (∀ k : string,
     k ∉ ["keywords"; "search_results"; "itinerary_draft"; "user_feedback"] →
     collect_updates input events !! k = input !! k) ∧
  consistent_state (collect_updates input events).
Proof.
  intros Hrun.
  assert (Hframe : ∀ k : string,
     k ∉ ["keywords"; "search_results"; "itinerary_draft"; "user_feedback"] →
     collect_updates input events !! k = input !! k).
  { intros k Hk. apply collect_updates_frame.
    - eapply app_stream_declared_outputs, Hrun.
    - intros n Heq. apply Hk. subst k.
      destruct n; cbn; rewrite !elem_of_cons; tauto. }
  split; [exact Hframe |]. unfold consistent_state.
  rewrite (Hframe "places_to_avoid")
    by (rewrite !elem_of_cons, elem_of_nil; intros [|[|[|[|]]]]; done).
  apply app_stream_inv in Hrun
    as (o1 & o2 & o3 & h1 & h2 & Hvibe & Hsearch & Hitin & ->).
  apply vibe_interpreter_agent_inv in Hvibe
    as (d & n & v & a & kws & _ & _ & _ & Ha & _ & -> & _).
  apply search_agent_inv in Hsearch
    as (d' & kw & calls & all_places & kept & _ & _ & _ & _ & Hloop & ->).
  apply itinerary_agent_inv in Hitin
    as (? & ? & ? & ? & content & _ & _ & _ & _ & _ & -> & _).
  apply dedupe_loop_inv in Hloop as (_ & Hnd & Havoid).
  rewrite lookup_output_ne, channels_lookup in Havoid
    by (done || unfold schema_keys; rewrite !elem_of_cons; tauto).
  exists kws, kept, content.
  cbn [collect_updates foldl snd].
  split_and!; [| | | | done | done].
  - now rewrite !lookup_output_ne, lookup_output_eq by done.
  - now rewrite !lookup_output_ne, lookup_output_eq by done.
  - now rewrite !lookup_output_ne, lookup_output_eq by done.
  - now rewrite lookup_output_eq.
Qed.

End PassInverted.

(** ** What the two operations return *)

Section Returned.

Variable w : World.

Lemma app_stream_draft input h events h' :
  app_stream w input h = (Ok events, h') →
  ∃ prompt content h2,
    h' = h2 ▷ EvHero prompt ∧
    llm_hero w h2 prompt = Ok content ∧
    collect_updates input events !! "itinerary_draft" = Some (VStr content) ∧
    collect_updates input events !! "search_results" =
      Some (ip_search_results prompt) ∧
    input !! "destination" = Some (ip_destination prompt) ∧
    input !! "duration_days" = Some (ip_duration_days prompt) ∧
    input !! "vibe" = Some (ip_vibe prompt).
Proof.
  intros Hrun.
  apply app_stream_inv in Hrun
    as (o1 & o2 & o3 & h1 & h2 & Hvibe & Hsearch & Hitin & ->).
  apply vibe_interpreter_agent_inv in Hvibe
    as (? & ? & ? & ? & kws & _ & _ & _ & _ & _ & -> & _).
  apply search_agent_inv in Hsearch
    as (? & ? & ? & ? & kept & _ & _ & _ & _ & _ & ->).
  apply itinerary_agent_inv in Hitin
    as (d & n & v & r & content & Hd & Hn & Hv & Hr & Hllm & -> & ->).
  rewrite lookup_output_eq in Hr. injection Hr as <-.
  rewrite !lookup_output_ne, channels_lookup in Hd, Hn, Hv
    by (done || unfold schema_keys; rewrite !elem_of_cons; tauto).
  eexists _, content, h2. cbn [collect_updates foldl snd].
  split_and!; [done | exact Hllm | | | done | done | done].
  - now rewrite lookup_output_ne, lookup_output_eq by done.
  - now rewrite !lookup_output_ne, lookup_output_eq by done.
Qed.

Lemma app_stream_keys input h events h' :
  app_stream w input h = (Ok events, h') →
  dom (collect_updates input events) =
  dom input ∪ {[ "keywords"; "search_results"; "itinerary_draft";
                 "user_feedback" ]}.
Proof.
  intros Hrun.
  apply app_stream_inv in Hrun
    as (o1 & o2 & o3 & h1 & h2 & Hvibe & Hsearch & Hitin & ->).
  apply vibe_interpreter_agent_inv in Hvibe
    as (? & ? & ? & ? & kws & _ & _ & _ & _ & _ & -> & _).
  apply search_agent_inv in Hsearch
    as (? & ? & ? & ? & kept & _ & _ & _ & _ & _ & ->).
  apply itinerary_agent_inv in Hitin
    as (? & ? & ? & ? & content & _ & _ & _ & _ & _ & -> & _).
  cbn [collect_updates foldl snd].
  rewrite !dom_union_L, !dom_singleton_L.
  apply set_eq. intros k. rewrite !elem_of_union, !elem_of_singleton. tauto.
Qed.

End Returned.

Ltac key_sets :=
  apply set_eq; intros ?;
  rewrite ?elem_of_union, ?elem_of_singleton, ?elem_of_empty; tauto.



(** A resume call that names a place to avoid returns a state whose
    [places_to_avoid] ends with that place and whose search results hold
    no place of that name, nor of any name avoided before, whatever the
    search results of the state sent in were. *)
Theorem blocked_place_is_gone :
  ∀ (w : World) request h response h' avoid p,
    rq_current_state request !! "places_to_avoid" = Some (VStrs avoid) →
    rq_place_to_avoid request = Some p →
    p ≠ "" →
    resume_plan w request h = (Ok response, h') →
    resp_current_state response !! "places_to_avoid" =
      Some (VStrs (avoid ++ [p])) ∧
    ∃ kept,
      resp_current_state response !! "search_results" = Some (VPlaces kept) ∧
      ∀ q, q ∈ kept → name q ≠ p ∧ name q ∉ avoid.
Proof.
  intros w request h response h' avoid p Ha Hp Hne Hrun.
  assert (Happ : appended (rq_place_to_avoid request) = [p]).
  { rewrite Hp. unfold appended. cbn [truthy].
    destruct (String.eqb_spec p ""); [done | reflexivity]. }
  rewrite (resume_plan_unfold w request h avoid Ha) in Hrun. cbv zeta in Hrun.
  destruct (app_stream w (resume_state_of request avoid) h)
    as [[events|e] h1] eqn:Hstream; [| discriminate].
  injection Hrun as <- _. cbn [resp_current_state].
  destruct (app_stream_final_state w _ _ _ _ Hstream) as [Hframe Hcons].
  assert (Hpta : collect_updates (resume_state_of request avoid) events
                   !! "places_to_avoid" = Some (VStrs (avoid ++ [p]))).
  { rewrite Hframe
      by (rewrite !elem_of_cons, elem_of_nil; intros [|[|[|[|]]]]; done).
    rewrite resume_state_of_avoid by done. now rewrite Happ. }
  split; [exact Hpta |].
  destruct Hcons as (kws & kept & content & _ & Hsr & _ & _ & _ & Hkept).
  rewrite Hpta in Hkept. exists kept. split; [exact Hsr |].
  intros q Hq. specialize (Hkept q Hq).
  rewrite elem_of_app, list_elem_of_singleton in Hkept. split; [| tauto].
  intros Heq. apply Hkept. now right.
Qed.

Lemma blocked_place_is_gone_witness :
  ∃ response h',
    resume_plan (sample_world (4 # 10) false)
      {| rq_current_state := sample_state;
         rq_user_feedback := "no temples";
         rq_place_to_avoid := Some "Ryoan-ji" |} [] = (Ok response, h') ∧
    resp_current_state response !! "places_to_avoid" =
      Some (VStrs (["Mall"] ++ ["Ryoan-ji"])) ∧
    ∃ kept,
      resp_current_state response !! "search_results" = Some (VPlaces kept) ∧
      ∀ q, q ∈ kept → name q ≠ "Ryoan-ji" ∧ name q ∉ ["Mall"].
Proof.
  set (r := resume_plan (sample_world (4 # 10) false)
              {| rq_current_state := sample_state;
                 rq_user_feedback := "no temples";
                 rq_place_to_avoid := Some "Ryoan-ji" |} []).
  assert (Hr : r = (Ok match r.1 with
                       | Ok response => response
                       | Raise _ => {| resp_itinerary_draft := VNone;
                                       resp_current_state := ∅ |}
                       end, r.2)) by (vm_compute; reflexivity).
  eexists _, _. split; [exact Hr |].
  apply (blocked_place_is_gone (sample_world (4 # 10) false)
           {| rq_current_state := sample_state;
              rq_user_feedback := "no temples";
              rq_place_to_avoid := Some "Ryoan-ji" |} []
           _ r.2 ["Mall"] "Ryoan-ji");
    [reflexivity | reflexivity | discriminate | exact Hr].
Defined.

(** The state [start_plan] returns has exactly the eight fields of
    [TravelGraphState], and the state [resume_plan] returns has the keys
    of the state it was given and the four output fields: a returned
    state that is resumed comes back with the same set of keys. *)
Theorem returned_state_keys :
  ∀ w : World,
    (∀ request h response h',
       start_plan w request h = (Ok response, h') →
       dom (resp_current_state response) = list_to_set schema_keys) ∧
    (∀ request h response h',
       resume_plan w request h = (Ok response, h') →
       dom (resp_current_state response) =
       dom (rq_current_state request)
         ∪ {[ "keywords"; "search_results"; "itinerary_draft";
              "user_feedback" ]}) ∧
    (∀ request h response h',
       resume_plan w request h = (Ok response, h') →
       dom (rq_current_state request) = list_to_set schema_keys →
       dom (resp_current_state response) = list_to_set schema_keys).
Proof.
  intros w.
  assert (Hresume : ∀ request h response h',
    resume_plan w request h = (Ok response, h') →
    dom (resp_current_state response) =
    dom (rq_current_state request)
      ∪ {[ "keywords"; "search_results"; "itinerary_draft";
           "user_feedback" ]}).
  { intros request h response h' Hrun.
    apply resume_plan_inv in Hrun as (resume_state & events & Hstate & Hrun & ->).
    rewrite (app_stream_keys w _ _ _ _ Hrun).
    destruct Hstate as [-> | (avoid & p & Ha & ->)].
    - rewrite dom_insert_L. key_sets.
    - rewrite !dom_insert_L.
      assert ("places_to_avoid" ∈ dom (rq_current_state request))
        by (apply elem_of_dom; eauto).
      apply set_eq. intros k.
      rewrite !elem_of_union, !elem_of_singleton.
      destruct (decide (k = "places_to_avoid")) as [-> |]; tauto. }
  split_and!.
  - intros request h response h' Hrun.
    apply start_plan_inv in Hrun as (events & Hrun & ->).
    rewrite (app_stream_keys w _ _ _ _ Hrun).
    unfold model_dump, schema_keys. rewrite !dom_insert_L, dom_singleton_L.
    cbn [list_to_set]. key_sets.
  - exact Hresume.
  - intros request h response h' Hrun Hdom.
    rewrite (Hresume _ _ _ _ Hrun), Hdom.
    unfold schema_keys. cbn [list_to_set]. key_sets.
Qed.

Lemma returned_state_keys_witness :
  ∃ response h',
    start_plan (sample_world (4 # 10) false) sample_request [] =
      (Ok response, h') ∧
    dom (resp_current_state response) = list_to_set schema_keys.
Proof.
  set (r := start_plan (sample_world (4 # 10) false) sample_request []).
  assert (Hr : r = (Ok match r.1 with
                       | Ok response => response
                       | Raise _ => {| resp_itinerary_draft := VNone;
                                       resp_current_state := ∅ |}
                       end, r.2)) by (vm_compute; reflexivity).
  eexists _, _. split; [exact Hr |].
  exact (proj1 (returned_state_keys (sample_world (4 # 10) false))
               sample_request [] _ _ Hr).
Defined.

(** The draft an operation returns is the answer of the itinerary
    generator, asked last, to a prompt that lists exactly the search
    results of the returned state and names the destination as the
    caller gave it, not as the search agent normalised it. *)
Theorem draft_answers_the_returned_places :
  ∀ w : World,
    (∀ request h response h',
       start_plan w request h = (Ok response, h') →
       ∃ prompt content h2,
         h' = h2 ▷ EvHero prompt ∧
         llm_hero w h2 prompt = Ok content ∧
         resp_itinerary_draft response = VStr content ∧
         resp_current_state response !! "itinerary_draft" =
           Some (VStr content) ∧
         resp_current_state response !! "search_results" =
           Some (ip_search_results prompt) ∧
         ip_destination prompt = VStr (rq_destination request)) ∧
    (∀ request h response h',
       resume_plan w request h = (Ok response, h') →
       ∃ prompt content h2,
         h' = h2 ▷ EvHero prompt ∧
         llm_hero w h2 prompt = Ok content ∧
         resp_itinerary_draft response = VStr content ∧
         resp_current_state response !! "itinerary_draft" =
           Some (VStr content) ∧
         resp_current_state response !! "search_results" =
           Some (ip_search_results prompt) ∧
         rq_current_state request !! "destination" =
           Some (ip_destination prompt)).
Proof.
  intros w. split.
  - intros request h response h' Hrun.
    rewrite start_plan_unfold in Hrun. cbv zeta in Hrun.
    destruct (app_stream w _ h) as [[events|e] h1] eqn:Hstream; [| discriminate].
    injection Hrun as <- <-.
    destruct (app_stream_draft w _ _ _ _ Hstream)
      as (prompt & content & h2 & -> & Hllm & Hdraft & Hsr & Hd & _).
    exists prompt, content, h2. cbn [resp_itinerary_draft resp_current_state].
    split_and!; [done | done | | done | done |].
    + unfold dict_get. now rewrite Hdraft.
    + clear Hstream Hdraft Hsr. unfold model_dump in Hd.
      simplify_map_eq. done.
  - intros request h response h' Hrun.
    unfold resume_plan in Hrun.
    apply lift_bind_inv in Hrun as (resume_state & Hstate & Hrun).
    apply bind_inv in Hrun as (events & h1 & Hstream & Hrun).
    injection Hrun as <- <-.
    destruct (app_stream_draft w _ _ _ _ Hstream)
      as (prompt & content & h2 & -> & Hllm & Hdraft & Hsr & Hd & _).
    exists prompt, content, h2. cbn [resp_itinerary_draft resp_current_state].
    split_and!; [done | done | | done | done |].
    + unfold dict_get. now rewrite Hdraft.
    + rewrite <- Hd. clear Hstream Hdraft Hsr Hd.
      destruct (rq_place_to_avoid request) as [p|].
      * destruct (truthy (VStr p)).
        -- unfold append_place_to_avoid, getitem in Hstate.
           rewrite lookup_insert_ne in Hstate by done.
           destruct (rq_current_state request !! "places_to_avoid") as [[]|];
             try discriminate.
           injection Hstate as <-. now rewrite !lookup_insert_ne by done.
        -- injection Hstate as <-. now rewrite lookup_insert_ne by done.
      * injection Hstate as <-. now rewrite lookup_insert_ne by done.
Qed.

Lemma draft_answers_the_returned_places_witness :
  ∃ response h' prompt content h2,
    start_plan (sample_world (4 # 10) false)
      {| rq_destination := "London"; rq_duration_days := 2;
         rq_vibe := "pubs"; rq_places_to_avoid := [] |} [] =
      (Ok response, h') ∧
    h' = h2 ▷ EvHero prompt ∧
    resp_itinerary_draft response = VStr content ∧
    ip_destination prompt = VStr "London".
Proof.
  set (request := {| rq_destination := "London"; rq_duration_days := 2;
                     rq_vibe := "pubs"; rq_places_to_avoid := [] |}).
  set (r := start_plan (sample_world (4 # 10) false) request []).
  assert (Hr : r = (Ok match r.1 with
                       | Ok response => response
                       | Raise _ => {| resp_itinerary_draft := VNone;
                                       resp_current_state := ∅ |}
                       end, r.2)) by (vm_compute; reflexivity).
  destruct (proj1 (draft_answers_the_returned_places
                     (sample_world (4 # 10) false)) request [] _ _ Hr)
    as (prompt & content & h2 & Hlog & _ & Hdraft & _ & _ & Hd).
  eexists _, _, prompt, content, h2. split_and!; [exact Hr | done ..].
Defined.

(** ** The feedback text *)

Lemma dedupe_loop_reads_places_to_avoid state state' all_places :
  ∀ seen final_places,
    state !! "places_to_avoid" = state' !! "places_to_avoid" →
    dedupe_loop state all_places seen final_places =
    dedupe_loop state' all_places seen final_places.
Proof.
  intros seen final_places Heq. revert seen final_places.
  induction all_places as [|p rest IH]; intros seen final_places; [done |].
  cbn [dedupe_loop]. unfold getitem. rewrite Heq.
  destruct (decide (name p ∈ seen)); [apply IH |].
  destruct (state' !! "places_to_avoid") as [[| | |avoid|]|]; try done.
  cbn. destruct (decide (name p ∈ avoid)); apply IH.
Qed.

Section FeedbackText.

Variable w : World.

Lemma same_but_feedback_merge out state state' :
  same_but_feedback state state' →
  same_but_feedback (out ∪ state) (out ∪ state').
Proof.
  intros Hsame k Hk. rewrite !lookup_union. now rewrite (Hsame k Hk).
Qed.

Lemma same_but_feedback_channels input input' :
  same_but_feedback input input' →
  same_but_feedback (filter (λ kv, kv.1 ∈ schema_keys) input)
                    (filter (λ kv, kv.1 ∈ schema_keys) input').
Proof.
  intros Hsame k Hk. rewrite !map_lookup_filter. now rewrite (Hsame k Hk).
Qed.

Lemma agents_ignore_feedback state state' h :
  same_but_feedback state state' →
  vibe_interpreter_agent w state h = vibe_interpreter_agent w state' h ∧
  search_agent w state h = search_agent w state' h ∧
  itinerary_agent w state h = itinerary_agent w state' h.
Proof.
  intros Hsame.
  unfold vibe_interpreter_agent, search_agent, itinerary_agent, getitem.
  rewrite !(Hsame "destination"), !(Hsame "duration_days"), !(Hsame "vibe"),
    !(Hsame "places_to_avoid"), !(Hsame "keywords"),
    !(Hsame "search_results") by done.
  split_and!; [done | | done].
  destruct (state' !! "destination") as [[]|]; try done.
  destruct (state' !! "keywords"); [| done].
  cbn [mbind Res_bind as_str]. rewrite !bind_lift_Ok, !bind_call.
  destruct (llm_gemini_tools w h _); [| done].
  rewrite !bind_unfold. destruct (run_tool_calls w _ _ _) as [[all_places|e] h1];
    [| done].
  now rewrite (dedupe_loop_reads_places_to_avoid state state')
    by (apply Hsame; done).
Qed.

Lemma app_stream_ignores_feedback input input' h :
  same_but_feedback input input' →
  app_stream w input h = app_stream w input' h.
Proof.
  intros Hsame%same_but_feedback_channels. unfold app_stream.
  change recursion_limit with (4 + 21)%nat. rewrite !stream_from_entry.
  rewrite !bind_unfold.
  rewrite (proj1 (agents_ignore_feedback _ _ h Hsame)).
  destruct (vibe_interpreter_agent w _ h) as [[o1|e] h1]; [| done].
  rewrite !bind_unfold.
  pose proof (same_but_feedback_merge o1 _ _ Hsame) as Hsame1.
  rewrite (proj1 (proj2 (agents_ignore_feedback _ _ h1 Hsame1))).
  destruct (search_agent w _ h1) as [[o2|e] h2]; [| done].
  rewrite !bind_unfold.
  pose proof (same_but_feedback_merge o2 _ _ Hsame1) as Hsame2.
  now rewrite (proj2 (proj2 (agents_ignore_feedback _ _ h2 Hsame2))).
Qed.

Lemma collect_updates_ignores_feedback input input' h events h' :
  same_but_feedback input input' →
  app_stream w input h = (Ok events, h') →
  collect_updates input events = collect_updates input' events.
Proof.
  intros Hsame Hrun.
  apply app_stream_inv in Hrun as (o1 & o2 & o3 & h1 & h2 & _ & _ & _ & ->).
  cbn [collect_updates foldl snd]. apply map_eq. intros k.
  destruct (decide (k = "user_feedback")) as [-> | Hk].
  - now rewrite !lookup_output_eq.
  - rewrite !(lookup_output_ne "user_feedback") by done.
    exact (same_but_feedback_merge o3 _ _
             (same_but_feedback_merge o2 _ _
                (same_but_feedback_merge o1 _ _ Hsame)) k Hk).
Qed.

End FeedbackText.

(** The text of [user_feedback] has no effect on a resume call: with
    the same state and the same place to avoid, any two feedback texts
    lead to the same external calls and the same result. *)
Theorem resume_ignores_feedback_text :
  ∀ (w : World) state feedback feedback' place h,
    resume_plan w {| rq_current_state := state;
                     rq_user_feedback := feedback;
                     rq_place_to_avoid := place |} h =
    resume_plan w {| rq_current_state := state;
                     rq_user_feedback := feedback';
                     rq_place_to_avoid := place |} h.
Proof.
  intros w state feedback feedback' place h.
  assert (Hsame : same_but_feedback (<[ "user_feedback" := VStr feedback ]> state)
                    (<[ "user_feedback" := VStr feedback' ]> state)).
  { intros k Hk. now rewrite !lookup_insert_ne by done. }
  assert (Htail : ∀ rs rs' : gmap string Value,
    same_but_feedback rs rs' →
    (events ← app_stream w rs;
     mret {| resp_itinerary_draft :=
               dict_get (collect_updates rs events) "itinerary_draft";
             resp_current_state := collect_updates rs events |}) h =
    (events ← app_stream w rs';
     mret {| resp_itinerary_draft :=
               dict_get (collect_updates rs' events) "itinerary_draft";
             resp_current_state := collect_updates rs' events |}) h).
  { intros rs rs' Hrs. rewrite !bind_unfold.
    rewrite <- (app_stream_ignores_feedback w rs rs' h Hrs).
    destruct (app_stream w rs h) as [[events|e] h1] eqn:Hrun; [| done].
    now rewrite (collect_updates_ignores_feedback w rs rs' h events h1 Hrs Hrun). }
  unfold resume_plan. cbn [rq_current_state rq_user_feedback rq_place_to_avoid].
  cbv zeta.
  destruct place as [p|]; [destruct (truthy (VStr p)) |].
  - unfold append_place_to_avoid, getitem.
    rewrite !lookup_insert_ne by done.
    destruct (state !! "places_to_avoid") as [[| | |l|]|]; try done.
    cbn [mbind Res_bind]. rewrite !bind_lift_Ok. apply Htail.
    intros k Hk. destruct (decide (k = "places_to_avoid")) as [-> | Hp].
    + now rewrite !lookup_insert_eq.
    + rewrite !(lookup_insert_ne _ "places_to_avoid") by done.
      now apply Hsame.
  - rewrite !bind_lift_Ok. now apply Htail.
  - rewrite !bind_lift_Ok. now apply Htail.
Qed.

(** ** Failures *)

Section Failures.

Variable w : World.

Lemma vibe_interpreter_agent_missing state h :
  (state !! "destination" = None →
   vibe_interpreter_agent w state h = (Raise (KeyError "destination"), h)) ∧
  (is_Some (state !! "destination") →
   state !! "duration_days" = None →
   vibe_interpreter_agent w state h = (Raise (KeyError "duration_days"), h)) ∧
  (is_Some (state !! "destination") →
   (∃ n, state !! "duration_days" = Some (VInt n)) →
   state !! "vibe" = None →
   vibe_interpreter_agent w state h = (Raise (KeyError "vibe"), h)) ∧
  (is_Some (state !! "destination") →
   (∃ n, state !! "duration_days" = Some (VInt n)) →
   is_Some (state !! "vibe") →
   state !! "places_to_avoid" = None →
   vibe_interpreter_agent w state h = (Raise (KeyError "places_to_avoid"), h)).
Proof.
  unfold vibe_interpreter_agent, getitem. split_and!.
  - now intros ->.
  - now intros [d ->] ->.
  - now intros [d ->] [n ->] ->.
  - now intros [d ->] [n ->] [v ->] ->.
Qed.

Lemma app_stream_first_failure input h e :
  vibe_interpreter_agent w (filter (λ kv, kv.1 ∈ schema_keys) input) h =
    (Raise e, h) →
  app_stream w input h = (Raise e, h).
Proof.
  intros Hvibe. unfold app_stream. change recursion_limit with (4 + 21)%nat.
  now rewrite stream_from_entry, bind_unfold, Hvibe.
Qed.

Lemma resume_plan_without_place state feedback h :
  resume_plan w {| rq_current_state := state;
                   rq_user_feedback := feedback;
                   rq_place_to_avoid := None |} h =
  (events ← app_stream w (<[ "user_feedback" := VStr feedback ]> state);
   mret {| resp_itinerary_draft :=
             dict_get (collect_updates
                         (<[ "user_feedback" := VStr feedback ]> state) events)
                      "itinerary_draft";
           resp_current_state :=
             collect_updates (<[ "user_feedback" := VStr feedback ]> state)
               events |}) h.
Proof. reflexivity. Qed.

Lemma tool_without_anchor query location_name h :
  (∀ city, geocode w h location_name true ≠ Ok (Some city)) →
  (query_places_nominatim w query location_name h).1 = Ok [].
Proof.
  intros Hnone.
  destruct (geocode w h location_name true) as [[city|]|e] eqn:Hcity.
  - now destruct (Hnone city).
  - now rewrite (tool_of_body _ _ _ _ _ _ (body_anchor_missing _ _ _ _ Hcity)).
  - now rewrite (tool_of_body _ _ _ _ _ _ (body_anchor_raises _ _ _ _ _ Hcity)).
Qed.

Lemma run_tool_calls_without_anchor tool_calls : ∀ all_places h,
  (∀ h location_name city, geocode w h location_name true ≠ Ok (Some city)) →
  (run_tool_calls w tool_calls all_places h).1 = Ok all_places.
Proof.
  induction tool_calls as [|tc rest IH]; intros all_places h Hnone; [done |].
  cbn [run_tool_calls].
  destruct (String.eqb (tc_name tc) "query_places_nominatim"); [| now apply IH].
  rewrite bind_unfold.
  pose proof (tool_without_anchor (tc_query tc) (tc_location_name tc) h
                (Hnone h (tc_location_name tc))) as Htool.
  destruct (query_places_nominatim w _ _ h) as [r h1]. cbn in Htool. subst r.
  rewrite app_nil_r. now apply IH.
Qed.

End Failures.

Lemma start_plan_channels request :
  let state :=
    filter (λ kv, kv.1 ∈ schema_keys)
      (<[ "user_feedback" := VStr "Start" ]> (model_dump request)) in
  state !! "destination" = Some (VStr (rq_destination request)) ∧
  state !! "duration_days" = Some (VInt (rq_duration_days request)) ∧
  state !! "vibe" = Some (VStr (rq_vibe request)) ∧
  state !! "places_to_avoid" = Some (VStrs (rq_places_to_avoid request)).
Proof.
  cbv zeta.
  rewrite !channels_lookup by (unfold schema_keys; rewrite !elem_of_cons; tauto).
  unfold model_dump. split_and!; by simplify_map_eq.
Qed.

(** A resume call on a state that cannot be planned from fails before
    any generator or geocoder is called: with a place to avoid and no
    [places_to_avoid] list to append it to, and otherwise at the first
    of destination, duration_days, vibe and places_to_avoid that is
    missing. *)
Theorem resume_fails_before_any_external_call :
  ∀ (w : World) state feedback h,
    (∀ p, p ≠ "" →
       let request := {| rq_current_state := state;
                         rq_user_feedback := feedback;
                         rq_place_to_avoid := Some p |} in
       (state !! "places_to_avoid" = None →
        resume_plan w request h = (Raise (KeyError "places_to_avoid"), h)) ∧
       (state !! "places_to_avoid" = Some VNone →
        resume_plan w request h = (Raise AttributeError, h)) ∧
       (∀ s, state !! "places_to_avoid" = Some (VStr s) →
        resume_plan w request h = (Raise AttributeError, h))) ∧
    let request := {| rq_current_state := state;
                      rq_user_feedback := feedback;
                      rq_place_to_avoid := None |} in
    (state !! "destination" = None →
     resume_plan w request h = (Raise (KeyError "destination"), h)) ∧
    (is_Some (state !! "destination") →
     state !! "duration_days" = None →
     resume_plan w request h = (Raise (KeyError "duration_days"), h)) ∧
    (is_Some (state !! "destination") →
     (∃ n, state !! "duration_days" = Some (VInt n)) →
     state !! "vibe" = None →
     resume_plan w request h = (Raise (KeyError "vibe"), h)) ∧
    (is_Some (state !! "destination") →
     (∃ n, state !! "duration_days" = Some (VInt n)) →
     is_Some (state !! "vibe") →
     state !! "places_to_avoid" = None →
     resume_plan w request h = (Raise (KeyError "places_to_avoid"), h)).
Proof.
  intros w state feedback h. split.
  - intros p Hp request. unfold request, resume_plan.
    cbn [rq_current_state rq_user_feedback rq_place_to_avoid truthy].
    destruct (String.eqb_spec p ""); [done |]. cbn [negb].
    unfold append_place_to_avoid, getitem. rewrite lookup_insert_ne by done.
    split_and!.
    + now intros ->.
    + now intros ->.
    + now intros s ->.
  - cbv zeta. rewrite resume_plan_without_place, bind_unfold.
    set (rs := <[ "user_feedback" := VStr feedback ]> state).
    assert (Hlook : ∀ k : string, k ∈ schema_keys → k ≠ "user_feedback" →
              filter (λ kv, kv.1 ∈ schema_keys) rs !! k = state !! k).
    { intros k Hin Hk. rewrite channels_lookup by done.
      unfold rs. now rewrite lookup_insert_ne by done. }
    pose proof (vibe_interpreter_agent_missing w
                  (filter (λ kv, kv.1 ∈ schema_keys) rs) h) as Hvibe.
    rewrite !Hlook in Hvibe
      by (done || unfold schema_keys; rewrite !elem_of_cons; tauto).
    destruct Hvibe as (H1 & H2 & H3 & H4).
    split_and!; intros;
      now rewrite (app_stream_first_failure w rs h _ ltac:(eauto)).
Qed.

Lemma resume_fails_before_any_external_call_witness :
  resume_plan (sample_world (4 # 10) false)
    {| rq_current_state := ∅;
       rq_user_feedback := "more food";
       rq_place_to_avoid := Some "Mall" |} [] =
  (Raise (KeyError "places_to_avoid"), []).
Proof.
  pose proof (resume_fails_before_any_external_call
                (sample_world (4 # 10) false) ∅ "more food" []) as [H _].
  exact (proj1 (H "Mall" ltac:(discriminate)) eq_refl).
Defined.

(** A generator that raises ends [start_plan] with that exception, after
    that one request and nothing more: no retry, no later node.  When the
    keyword generator raises, no geocoder call has been made. *)
Theorem generator_failure_ends_the_run :
  ∀ (w : World) request h,
    let vibe_prompt :=
      vibe_prompt_of (VStr (rq_destination request))
        (rq_duration_days request) (VStr (rq_vibe request))
        (VStrs (rq_places_to_avoid request)) in
    (∀ e,
       llm_hero_structured w h vibe_prompt = Raise e →
       start_plan w request h = (Raise e, h ▷ EvHeroStructured vibe_prompt)) ∧
    (∀ keywords e,
       llm_hero_structured w h vibe_prompt = Ok keywords →
       llm_gemini_tools w (h ▷ EvHeroStructured vibe_prompt)
         (search_prompt_of (rq_destination request) (VStrs keywords))
         = Raise e →
       start_plan w request h =
         (Raise e,
          h ▷ EvHeroStructured vibe_prompt
            ▷ EvGeminiTools (search_prompt_of (rq_destination request)
                               (VStrs keywords)))).
Proof.
  intros w request h vibe_prompt.
  set (input := <[ "user_feedback" := VStr "Start" ]> (model_dump request)).
  set (state := filter (λ kv, kv.1 ∈ schema_keys) input).
  destruct (start_plan_channels request) as (Hd & Hn & Hv & Ha).
  fold input state in Hd, Hn, Hv, Ha.
  pose proof (vibe_interpreter_agent_run w state h _ _ _ _ Hd Hn Hv Ha) as Hvibe.
  fold vibe_prompt in Hvibe.
  assert (Hstart : start_plan w request h =
            match app_stream w input h with
            | (Ok events, h') =>
                (Ok {| resp_itinerary_draft :=
                         dict_get (collect_updates input events) "itinerary_draft";
                       resp_current_state := collect_updates input events |}, h')
            | (Raise e, h') => (Raise e, h')
            end) by apply start_plan_unfold.
  assert (Hstream : app_stream w input h =
            (o1 ← vibe_interpreter_agent w state;
             o2 ← search_agent w (o1 ∪ state);
             o3 ← itinerary_agent w (o2 ∪ (o1 ∪ state));
             mret [ (vibe_interpreter, o1); (search_agent_node, o2);
                    (itinerary_agent_node, o3);
                    (await_feedback_node, {[ "user_feedback" := VNone ]}) ]) h).
  { unfold app_stream. change recursion_limit with (4 + 21)%nat.
    apply stream_from_entry. }
  rewrite Hstart, Hstream, bind_unfold, Hvibe. clear Hstart Hstream Hvibe.
  clearbody state input. split.
  - now intros e ->.
  - intros keywords e -> Hllm. rewrite bind_unfold.
    rewrite (search_agent_unfold w _ _ (rq_destination request) (VStrs keywords)).
    + now rewrite Hllm.
    + rewrite lookup_output_ne by discriminate. exact Hd.
    + apply lookup_output_eq.
Qed.

Lemma generator_failure_ends_the_run_witness :
  ∃ prompt,
    start_plan rate_limited_world sample_request [] =
    (Raise (ServiceError "rate limit"), [] ▷ EvHeroStructured prompt).
Proof.
  eexists.
  exact (proj1 (generator_failure_ends_the_run rate_limited_world
                  sample_request [])
               (ServiceError "rate limit") eq_refl).
Defined.

(** A geocoder that does not find the anchor city, because it is down or
    because it does not know the place, does not fail a plan: with
    generators that answer, [start_plan] returns with empty search
    results. *)
Theorem geocoder_outage_gives_an_empty_plan :
  ∀ (w : World) request h,
    generators_answer w →
    (∀ h location_name city, geocode w h location_name true ≠ Ok (Some city)) →
    ∃ response h',
      start_plan w request h = (Ok response, h') ∧
      resp_current_state response !! "search_results" = Some (VPlaces []).
Proof.
  intros w request h Hgen Hdown.
  set (input := <[ "user_feedback" := VStr "Start" ]> (model_dump request)).
  assert (Hfields : has_trip_fields input).
  { exists (rq_destination request), (rq_duration_days request),
      (rq_vibe request), (rq_places_to_avoid request).
    unfold input, model_dump. split_and!; by simplify_map_eq. }
  destruct (app_stream_one_pass w input h Hgen Hfields)
    as (keywords & places & content & h' & Hrun).
  eexists _, h'. split.
  - rewrite start_plan_unfold. fold input. cbv zeta. rewrite Hrun. reflexivity.
  - clearbody input. cbn [resp_current_state collect_updates foldl snd].
    rewrite !lookup_output_ne, lookup_output_eq by discriminate.
    apply app_stream_inv in Hrun
      as (o1 & o2 & o3 & h1 & h2 & _ & Hsearch & _ & Hev).
    injection Hev as _ <- _.
    apply search_agent_inv in Hsearch
      as (d & kw & calls & all_places & kept & _ & _ & _ & Hcalls & Hloop & Hout).
    apply (f_equal (λ m : gmap string Value, m !! "search_results")) in Hout.
    rewrite !lookup_singleton_eq in Hout. injection Hout as ->.
    pose proof (run_tool_calls_without_anchor w calls []
                  (h1 ▷ EvGeminiTools (search_prompt_of d kw)) Hdown) as Hnone.
    rewrite Hcalls in Hnone. injection Hnone as ->.
    now injection Hloop as <-.
Qed.

Lemma geocoder_outage_gives_an_empty_plan_witness :
  ∃ response h',
    start_plan failing_world sample_request [] = (Ok response, h') ∧
    resp_current_state response !! "search_results" = Some (VPlaces []).
Proof.
  apply geocoder_outage_gives_an_empty_plan.
  - split_and!; intros h p; eexists; reflexivity.
  - discriminate.
Defined.

(** ** The routing tool *)

(** [get_ors_directions] never raises.  Without a client it returns the
    "unavailable" estimate and calls nothing.  With a client it calls the
    provider once: an exception of the provider, a response without
    routes, or a first route without a summary come back as an error
    text, an empty list of routes as "No directions found.", and
    otherwise the estimate is computed from the summary of the first
    route alone, a missing duration or distance counting as 0. *)
Theorem routing_tool_outcomes :
  ∀ ors_directions minutes_of km_of str_of_exn
    (ors_client : option Client) (start_coords end_coords : list Q)
    (profile : string) (h : Log),
    let run := get_ors_directions ors_directions minutes_of km_of str_of_exn
                 ors_client start_coords end_coords profile h in
    let error e := Message ("Error using OpenRouteService API: "
                            +:+ str_of_exn e) in
    (∃ out, run.1 = Ok out) ∧
    (ors_client = None →
     run = (Ok (Estimate 0 0 (Some "Directions unavailable (No API Key)")), h)) ∧
    ∀ client,
      ors_client = Some client →
      let answer := ors_directions h client [start_coords; end_coords] profile in
      run.2 = h ▷ EvDirections [start_coords; end_coords] profile ∧
      (∀ e, answer = Raise e → run.1 = Ok (error e)) ∧
      (∀ d, answer = Ok d → dr_routes d = None →
            run.1 = Ok (error (KeyError "routes"))) ∧
      (∀ d, answer = Ok d → dr_routes d = Some [] →
            run.1 = Ok (Message "No directions found.")) ∧
      (∀ d route rest, answer = Ok d → dr_routes d = Some (route :: rest) →
         (route_summary route = None →
          run.1 = Ok (error (KeyError "summary"))) ∧
         (∀ summary, route_summary route = Some summary →
            run.1 = Ok (Estimate
                          (minutes_of (default 0%Q (sm_duration summary)))
                          (km_of (default 0%Q (sm_distance summary)))
                          None))).
Proof.
  intros ors_directions minutes_of km_of str_of_exn ors_client
    start_coords end_coords profile h run error.
  destruct ors_client as [client|].
  - assert (Hrun : run =
      (match ors_directions h client [start_coords; end_coords] profile with
      | Raise e => Ok (error e)
      | Ok d =>
          match dr_routes d with
          | None => Ok (error (KeyError "routes"))
          | Some [] => Ok (Message "No directions found.")
          | Some (route :: _) =>
              match route_summary route with
              | None => Ok (error (KeyError "summary"))
              | Some summary =>
                  Ok (Estimate
                        (minutes_of (default 0%Q (sm_duration summary)))
                        (km_of (default 0%Q (sm_distance summary))) None)
              end
          end
      end, h ▷ EvDirections [start_coords; end_coords] profile)).
    { unfold run, get_ors_directions, try_except. rewrite bind_call.
      destruct (ors_directions h client _ profile) as [d|e]; [| done].
      destruct (dr_routes d) as [[|route rest]|]; [done | | done].
      rewrite bind_lift_Ok. cbn beta iota.
      now destruct (route_summary route). }
    rewrite Hrun. cbn [fst snd]. split_and!.
    + destruct (ors_directions h client _ profile) as [d|e]; [| eauto].
      destruct (dr_routes d) as [[|route rest]|]; eauto.
      destruct (route_summary route); eauto.
    + discriminate.
    + intros ? [= <-]. cbv zeta. split_and!.
      * done.
      * now intros e ->.
      * now intros d -> ->.
      * now intros d -> ->.
      * intros d route rest -> ->. split; [now intros -> |].
        now intros summary ->.
  - split_and!; [now eexists | done | discriminate].
Qed.

Lemma routing_tool_outcomes_witness :
  (get_ors_directions sample_provider sample_minutes sample_km sample_str
     (Some {| client_key := "key" |}) [135 # 1; 35 # 1]%Q [136 # 1; 35 # 1]%Q
     "foot-walking" []).1 =
  Ok (Estimate (sample_minutes (754 # 1)) (sample_km (1020 # 1)) None).
Proof.
  pose proof (routing_tool_outcomes sample_provider sample_minutes sample_km
                sample_str (Some {| client_key := "key" |})
                [135 # 1; 35 # 1]%Q [136 # 1; 35 # 1]%Q "foot-walking" []) as H.
  cbv zeta in H. destruct H as (_ & _ & H).
  destruct (H _ eq_refl) as (_ & _ & _ & _ & H').
  exact (proj2 (H' sample_directions _ _ eq_refl eq_refl) _ eq_refl).
Defined.

(** The client exists exactly when ORS_API_KEY is set to a non-empty
    key and the client constructor does not raise.  In every other case
    the routing tool answers with the "unavailable" estimate and never
    calls the provider. *)
Theorem no_key_means_no_routing :
  ∀ (environ : gmap string string) (make_client : string → Res Client),
    (∀ client,
       init_ors_client environ make_client = Some client ↔
       ∃ ors_key, environ !! "ORS_API_KEY" = Some ors_key ∧ ors_key ≠ "" ∧
                  make_client ors_key = Ok client) ∧
    ((environ !! "ORS_API_KEY" = None ∨
      environ !! "ORS_API_KEY" = Some "" ∨
      ∃ ors_key e, environ !! "ORS_API_KEY" = Some ors_key ∧
                   make_client ors_key = Raise e) →
     init_ors_client environ make_client = None ∧
     ∀ ors_directions minutes_of km_of str_of_exn start_coords end_coords
       profile h,
       get_ors_directions ors_directions minutes_of km_of str_of_exn
         (init_ors_client environ make_client) start_coords end_coords
         profile h =
       (Ok (Estimate 0 0 (Some "Directions unavailable (No API Key)")), h)).
Proof.
  intros environ make_client. unfold init_ors_client.
  destruct (environ !! "ORS_API_KEY") as [ors_key|] eqn:Hkey.
  - destruct (String.eqb_spec ors_key "") as [-> | Hne]; cbn [negb].
    + split.
      * intros client. split; [discriminate |].
        intros (k & [= <-] & Hk & _). done.
      * intros _. split; [done |]. reflexivity.
    + cbn [mbind Res_bind].
      destruct (make_client ors_key) as [client|e] eqn:Hmk.
      * split.
        -- intros c. split.
           ++ intros [= <-]. now exists ors_key.
           ++ intros (k & [= <-] & _ & Hc). rewrite Hmk in Hc.
              now injection Hc as <-.
        -- intros [? | [[= ?] | (k & e & [= <-] & He)]]; congruence.
      * split.
        -- intros c. split; [discriminate |].
           intros (k & [= <-] & _ & Hc). congruence.
        -- intros _. split; [done |]. reflexivity.
  - split.
    + intros client. split; [discriminate |]. intros (k & Hk & _). discriminate.
    + intros _. split; [done |]. reflexivity.
Qed.

Lemma no_key_means_no_routing_witness :
  get_ors_directions sample_provider sample_minutes sample_km sample_str
    (init_ors_client {[ "ORS_API_KEY" := "" ]}
       (λ key, Ok {| client_key := key |}))
    [135 # 1; 35 # 1]%Q [136 # 1; 35 # 1]%Q "foot-walking" [] =
  (Ok (Estimate 0 0 (Some "Directions unavailable (No API Key)")), []).
Proof.
  refine (proj2 (proj2 (no_key_means_no_routing {[ "ORS_API_KEY" := "" ]}
                          (λ key, Ok {| client_key := key |})) _)
                _ _ _ _ _ _ _ _).
  right; left. reflexivity.
Defined.

(** ** The payloads of the frontend *)

Lemma contains_comma_cons c s :
  contains "," (String c s) = Ascii.eqb c "," || contains "," s.
Proof.
  cbn [contains String.prefix].
  destruct (Ascii.ascii_dec "," c) as [<- | Hne].
  - now destruct s.
  - destruct (Ascii.eqb_spec c ","); [congruence | done].
Qed.

Lemma split_comma_cons c s :
  split_comma (String c s) =
  if Ascii.eqb c "," then "" :: split_comma s
  else match split_comma s with
       | x :: xs => String c x :: xs
       | [] => [ String c "" ]
       end.
Proof. reflexivity. Qed.

Lemma split_comma_pieces s :
  split_comma s ≠ [] ∧
  Forall (λ x, contains "," x = false) (split_comma s).
Proof.
  induction s as [|c s [IHne IHall]].
  - split; [discriminate | repeat constructor].
  - rewrite split_comma_cons. destruct (Ascii.eqb c ",") eqn:Hc.
    + split; [discriminate | now constructor].
    + destruct (split_comma s) as [|x xs]; [done |].
      apply Forall_cons in IHall as [Hx Hxs].
      split; [discriminate |]. constructor; [| done].
      now rewrite contains_comma_cons, Hc.
Qed.

Lemma split_comma_no_comma x :
  contains "," x = false → split_comma x = [x].
Proof.
  induction x as [|c x IH]; [done |].
  rewrite contains_comma_cons, orb_false_iff. intros [Hc Hx].
  now rewrite split_comma_cons, Hc, IH.
Qed.

Lemma split_comma_app x rest :
  contains "," x = false →
  split_comma (x +:+ String "," rest) = x :: split_comma rest.
Proof.
  induction x as [|c x IH]; [done |].
  rewrite contains_comma_cons, orb_false_iff. intros [Hc Hx].
  now rewrite append_cons, split_comma_cons, Hc, IH.
Qed.

Lemma lstrip_length s : (String.length (lstrip s) ≤ String.length s)%nat.
Proof.
  induction s as [|c s IH]; [done |]. cbn [lstrip].
  destruct (is_space c); cbn [String.length]; lia.
Qed.

Lemma lstrip_no_comma x :
  contains "," x = false → contains "," (lstrip x) = false.
Proof.
  induction x as [|c x IH]; [done |]. cbn [lstrip].
  destruct (is_space c); [| done].
  rewrite contains_comma_cons, orb_false_iff. intros [_ Hx]. auto.
Qed.

Lemma rstrip_no_comma x :
  contains "," x = false → contains "," (rstrip x) = false.
Proof.
  induction x as [|c x IH]; [done |].
  rewrite contains_comma_cons, orb_false_iff. intros [Hc Hx].
  specialize (IH Hx). cbn [rstrip]. destruct (rstrip x) as [|c' r].
  - destruct (is_space c); [done |]. now rewrite contains_comma_cons, Hc.
  - now rewrite contains_comma_cons, Hc, IH.
Qed.

Lemma rstrip_idem s : rstrip (rstrip s) = rstrip s.
Proof.
  induction s as [|c s IH]; [done |]. cbn [rstrip].
  destruct (rstrip s) as [|c' r] eqn:Hr.
  - destruct (is_space c) eqn:Hc; [done |]. cbn [rstrip]. now rewrite Hc.
  - cbn [rstrip]. cbn [rstrip] in IH. now rewrite IH.
Qed.

Lemma lstrip_rstrip s : lstrip s = s → lstrip (rstrip s) = rstrip s.
Proof.
  destruct s as [|c s]; [done |]. cbn [lstrip rstrip].
  destruct (is_space c) eqn:Hc.
  - intros Heq. pose proof (lstrip_length s) as Hlen.
    rewrite Heq in Hlen. cbn [String.length] in Hlen. lia.
  - intros _. destruct (rstrip s); cbn [lstrip]; now rewrite Hc.
Qed.

Lemma lstrip_idem s : lstrip (lstrip s) = lstrip s.
Proof.
  induction s as [|c s IH]; [done |]. cbn [lstrip].
  destruct (is_space c) eqn:Hc; [done |]. cbn [lstrip]. now rewrite Hc.
Qed.

Lemma strip_idem s : strip (strip s) = strip s.
Proof.
  unfold strip. rewrite (lstrip_rstrip (lstrip s)) by apply lstrip_idem.
  apply rstrip_idem.
Qed.

(** Every entry that "Plan My Trip" sends in [places_to_avoid] is a
    stripped piece of the comma-separated input: it is not empty, has no
    white space at its ends and no comma in it. *)
Theorem avoid_entries_are_clean :
  ∀ (destination : string) (duration : Z) (vibe avoid x : string),
    x ∈ rq_places_to_avoid (start_payload destination duration vibe avoid) →
    clean_name x ∧ ∃ piece, piece ∈ split_comma avoid ∧ x = strip piece.
Proof.
  intros destination duration vibe avoid x.
  cbn [rq_places_to_avoid start_payload]. unfold parse_avoid.
  rewrite list_elem_of_fmap. intros (piece & -> & Hin).
  apply list_elem_of_In, List.filter_In in Hin as [Hin Hne].
  apply list_elem_of_In in Hin.
  split; [| now exists piece].
  split_and!.
  - intros Heq. rewrite Heq in Hne. discriminate.
  - apply strip_idem.
  - rewrite <- contains_occurs, not_true_iff_false.
    apply rstrip_no_comma, lstrip_no_comma.
    pose proof (proj2 (split_comma_pieces avoid)) as Hall.
    rewrite Forall_forall in Hall. now apply Hall.
Qed.

Lemma avoid_entries_are_clean_witness :
  clean_name "crowded malls" ∧
  ∃ piece, piece ∈ split_comma "Tourist traps, crowded malls " ∧
           "crowded malls" = strip piece.
Proof.
  apply (avoid_entries_are_clean "Kyoto, Japan" 3 "zen"
           "Tourist traps, crowded malls " "crowded malls").
  cbn. apply list_elem_of_In. right; left. reflexivity.
Defined.

Lemma strip_leading_space x : strip (String " " x) = strip x.
Proof. reflexivity. Qed.

Lemma split_comma_join n : ∀ rest,
  Forall (λ x, contains "," x = false) (n :: rest) →
  split_comma (String.concat ", " (n :: rest)) =
  n :: ((λ x, String " " x) <$> rest).
Proof.
  intros rest. revert n. induction rest as [|m rest IH]; intros n Hall.
  - apply Forall_cons in Hall as [Hn _]. now apply split_comma_no_comma.
  - apply Forall_cons in Hall as [Hn Hrest].
    change (String.concat ", " (n :: m :: rest))
      with (n +:+ String "," (String " " (String.concat ", " (m :: rest)))).
    rewrite split_comma_app by done.
    rewrite split_comma_cons. cbn [Ascii.eqb Bool.eqb].
    now rewrite (IH m Hrest).
Qed.

(** Names that are clean come back from the avoid field as they were
    typed, in order, when they are entered separated by ", ". *)
Theorem avoid_list_round_trip :
  ∀ names : list string,
    Forall clean_name names →
    parse_avoid (String.concat ", " names) = names.
Proof.
  intros names Hclean. destruct names as [|n rest]; [done |].
  assert (Hcomma : Forall (λ x, contains "," x = false) (n :: rest)).
  { eapply Forall_impl; [exact Hclean |].
    intros x (_ & _ & Hx). rewrite <- contains_occurs in Hx.
    now apply not_true_iff_false. }
  unfold parse_avoid. rewrite (split_comma_join n rest Hcomma).
  apply Forall_cons in Hclean as [(Hne & Hstrip & _) Hrest].
  cbn [List.filter]. rewrite Hstrip.
  destruct (String.eqb_spec n ""); [done |]. cbn [negb fmap list_fmap].
  rewrite Hstrip. f_equal. clear -Hrest.
  induction Hrest as [|m rest (Hne & Hstrip & _) _ IH]; [done |].
  cbn [fmap list_fmap List.filter]. rewrite strip_leading_space, Hstrip.
  destruct (String.eqb_spec m ""); [done |]. cbn [negb fmap list_fmap].
  rewrite strip_leading_space, Hstrip. f_equal. exact IH.
Qed.

Lemma avoid_list_round_trip_witness :
  parse_avoid (String.concat ", " ["Tourist traps"; "crowded malls"]) =
  ["Tourist traps"; "crowded malls"].
Proof.
  apply avoid_list_round_trip.
  repeat constructor; try discriminate;
    rewrite <- contains_occurs; discriminate.
Defined.

(** The frontend sends a [place_to_avoid] only when the field is not
    empty, so for its payloads [resume_plan] appends exactly when the
    payload carries a place, and appends it as it was typed. *)
Theorem frontend_resume_appends_what_is_sent :
  ∀ (w : World) current_state feedback_text avoid_new h response h' avoid,
    current_state !! "places_to_avoid" = Some (VStrs avoid) →
    resume_plan w (resume_payload current_state feedback_text avoid_new) h =
      (Ok response, h') →
    rq_place_to_avoid (resume_payload current_state feedback_text avoid_new)
      ≠ Some "" ∧
    resp_current_state response !! "places_to_avoid" =
      Some (VStrs (avoid ++
                   match rq_place_to_avoid
                           (resume_payload current_state feedback_text avoid_new)
                   with
                   | Some p => [p]
                   | None => []
                   end)) ∧
    (avoid_new ≠ "" →
     resp_current_state response !! "places_to_avoid" =
       Some (VStrs (avoid ++ [avoid_new]))).
Proof.
  intros w current_state feedback_text avoid_new h response h' avoid Ha Hrun.
  rewrite (resume_plan_unfold w
             (resume_payload current_state feedback_text avoid_new) h avoid Ha)
    in Hrun.
  cbv zeta in Hrun.
  destruct (app_stream w _ h) as [[events|e] h1] eqn:Hstream; [| discriminate].
  injection Hrun as <- _. cbn [resp_current_state].
  rewrite collect_updates_frame;
    [| eapply app_stream_declared_outputs, Hstream | now intros []].
  rewrite resume_state_of_avoid by exact Ha.
  cbn [resume_payload rq_place_to_avoid]. unfold appended. cbn [truthy].
  destruct (String.eqb_spec avoid_new "") as [-> | Hne]; cbn [negb].
  - split_and!; [discriminate | done | done].
  - destruct (String.eqb_spec avoid_new ""); [done |]. cbn [negb].
    split_and!; [congruence | done | done].
Qed.

Lemma frontend_resume_appends_what_is_sent_witness :
  ∃ response h',
    resume_plan (sample_world (4 # 10) false)
      (resume_payload sample_state "more gardens" "Ryoan-ji") [] =
      (Ok response, h') ∧
    resp_current_state response !! "places_to_avoid" =
      Some (VStrs (["Mall"] ++ ["Ryoan-ji"])).
Proof.
  set (r := resume_plan (sample_world (4 # 10) false)
              (resume_payload sample_state "more gardens" "Ryoan-ji") []).
  assert (Hr : r = (Ok match r.1 with
                       | Ok response => response
                       | Raise _ => {| resp_itinerary_draft := VNone;
                                       resp_current_state := ∅ |}
                       end, r.2)) by (vm_compute; reflexivity).
  eexists _, _. split; [exact Hr |].
  apply (frontend_resume_appends_what_is_sent (sample_world (4 # 10) false)
           sample_state "more gardens" "Ryoan-ji" [] _ r.2 ["Mall"]);
    [reflexivity | exact Hr | discriminate].
Defined.

(** ** What the keyword generator is told on a resume *)

Lemma app_stream_first_request w input h destination duration_days vibe avoid :
  input !! "destination" = Some (VStr destination) →
  input !! "duration_days" = Some (VInt duration_days) →
  input !! "vibe" = Some vibe →
  input !! "places_to_avoid" = Some avoid →
  ∃ evs,
    (app_stream w input h).2 =
    h ++ EvHeroStructured
           (vibe_prompt_of (VStr destination) duration_days vibe avoid) :: evs.
Proof.
  intros Hd Hn Hv Ha. unfold app_stream.
  change recursion_limit with (4 + 21)%nat. rewrite stream_from_entry.
  set (state := filter (λ kv, kv.1 ∈ schema_keys) input).
  assert (Hd0 : state !! "destination" = Some (VStr destination))
    by (unfold state; rewrite channels_lookup; [done |];
        unfold schema_keys; rewrite !elem_of_cons; tauto).
  assert (Hn0 : state !! "duration_days" = Some (VInt duration_days))
    by (unfold state; rewrite channels_lookup; [done |];
        unfold schema_keys; rewrite !elem_of_cons; tauto).
  assert (Hv0 : state !! "vibe" = Some vibe)
    by (unfold state; rewrite channels_lookup; [done |];
        unfold schema_keys; rewrite !elem_of_cons; tauto).
  assert (Ha0 : state !! "places_to_avoid" = Some avoid)
    by (unfold state; rewrite channels_lookup; [done |];
        unfold schema_keys; rewrite !elem_of_cons; tauto).
  clearbody state. clear Hd Hn Hv Ha.
  rewrite bind_unfold,
    (vibe_interpreter_agent_run w state h _ _ _ _ Hd0 Hn0 Hv0 Ha0).
  set (prompt := vibe_prompt_of (VStr destination) duration_days vibe avoid).
  destruct (llm_hero_structured w h prompt) as [keywords|e]; [| now exists []].
  set (s1 := {[ "keywords" := VStrs keywords ]} ∪ state).
  assert (Hd1 : s1 !! "destination" = Some (VStr destination))
    by (unfold s1; rewrite lookup_output_ne by discriminate; exact Hd0).
  assert (Hk1 : s1 !! "keywords" = Some (VStrs keywords))
    by apply lookup_output_eq.
  destruct (search_agent_log_extends w s1 (h ▷ EvHeroStructured prompt)
              destination (VStrs keywords) Hd1 Hk1) as (evs1 & Hlog1).
  rewrite bind_unfold.
  destruct (search_agent w s1 (h ▷ EvHeroStructured prompt))
    as [[o2|e] h2] eqn:Hsearch; cbn [snd] in Hlog1; subst h2.
  - apply search_agent_inv in Hsearch
      as (? & ? & ? & ? & kept & _ & _ & _ & _ & _ & ->).
    rewrite bind_unfold.
    rewrite (itinerary_agent_run w _ _ (VStr destination) (VInt duration_days)
               vibe (VPlaces kept)).
    + cbv zeta. destruct (llm_hero w _ _); cbn [snd mret M_ret];
        eexists; rewrite <- !app_assoc; cbn [app]; reflexivity.
    + rewrite lookup_output_ne by discriminate. exact Hd1.
    + unfold s1. rewrite !lookup_output_ne by discriminate. exact Hn0.
    + unfold s1. rewrite !lookup_output_ne by discriminate. exact Hv0.
    + apply lookup_output_eq.
  - eexists. cbn [snd]. rewrite <- app_assoc. cbn [app]. reflexivity.
Qed.

(** On a resume the keyword generator is the first thing called, and it
    is asked with the destination, duration and vibe of the state sent
    in, with the avoid list as it stands after this call's own place was
    appended, and for the same number of terms as on the first pass. *)
Theorem resume_tells_the_generator_what_to_avoid :
  ∀ (w : World) request h destination duration_days vibe avoid,
    rq_current_state request !! "destination" = Some (VStr destination) →
    rq_current_state request !! "duration_days" = Some (VInt duration_days) →
    rq_current_state request !! "vibe" = Some vibe →
    rq_current_state request !! "places_to_avoid" = Some (VStrs avoid) →
    ∃ prompt evs,
      (resume_plan w request h).2 = h ++ EvHeroStructured prompt :: evs ∧
      vp_avoid prompt =
        VStrs (avoid ++ appended (rq_place_to_avoid request)) ∧
      vp_target_count prompt = Z.max 10 (duration_days * 4) ∧
      vp_destination prompt = VStr destination ∧
      vp_duration_days prompt = duration_days ∧
      vp_vibe prompt = vibe.
Proof.
  intros w request h destination duration_days vibe avoid Hd Hn Hv Ha.
  destruct (app_stream_first_request w (resume_state_of request avoid) h
              destination duration_days vibe
              (VStrs (avoid ++ appended (rq_place_to_avoid request))))
    as (evs & Hlog).
  - now rewrite resume_state_of_other by done.
  - now rewrite resume_state_of_other by done.
  - now rewrite resume_state_of_other by done.
  - now apply resume_state_of_avoid.
  - exists (vibe_prompt_of (VStr destination) duration_days vibe
              (VStrs (avoid ++ appended (rq_place_to_avoid request)))), evs.
    split_and!; [| reflexivity ..].
    rewrite (resume_plan_unfold w request h avoid Ha). cbv zeta.
    destruct (app_stream w (resume_state_of request avoid) h) as [[events|e] h1];
      exact Hlog.
Qed.

Lemma resume_tells_the_generator_what_to_avoid_witness :
  ∃ prompt evs,
    (resume_plan (sample_world (4 # 10) false)
       {| rq_current_state := sample_state;
          rq_user_feedback := "no temples";
          rq_place_to_avoid := Some "Ryoan-ji" |} []).2 =
      [] ++ EvHeroStructured prompt :: evs ∧
    vp_avoid prompt = VStrs (["Mall"] ++ ["Ryoan-ji"]) ∧
    vp_target_count prompt = 12%Z.
Proof.
  destruct (resume_tells_the_generator_what_to_avoid
              (sample_world (4 # 10) false)
              {| rq_current_state := sample_state;
                 rq_user_feedback := "no temples";
                 rq_place_to_avoid := Some "Ryoan-ji" |} []
              "Kyoto, Japan" 3 (VStr "zen gardens") ["Mall"])
    as (prompt & evs & Hlog & Havoid & Hcount & _); [reflexivity .. |].
  exists prompt, evs. split_and!; [exact Hlog | exact Havoid | exact Hcount].
Defined.
